(** * audit_pretty: a shallow embedding of the tokenizer, the filter,
      the aggregation loop and the legacy message-type plugins.

    Layout
    - [Py]      : the Python values and builtins the program relies on
                  (str methods, [int], insertion-ordered dicts, exceptions);
    - [Re]      : the fragment of Python's [re] the three patterns use, as a
                  backtracking matcher with capture groups;
    - [Parsers] : [audit_pretty/parsers.py];
    - [Seccomp] : [audit_pretty/parsers/seccomp.py];
    - [Main]    : [audit_pretty/__main__.py].

    Strings are sequences of code points below 256 (ASCII and Latin-1),
    Python integers are [Z]. *)

From Stdlib Require Import ZArith List Bool Ascii String Lia Permutation.
From Stdlib Require Import Numbers.DecimalString.
Import ListNotations.

Local Open Scope string_scope.
Local Open Scope list_scope.
Local Open Scope Z_scope.

(* ================================================================= *)
(** ** Python values, exceptions and builtins                          *)
(* ================================================================= *)

Module Py.

(** A record field holds a [str] or an [int]. *)
Inductive value : Type :=
| VStr (s : string)
| VInt (z : Z).

Inductive exn : Type :=
| KeyError (k : string)
| TypeError
| ValueError
| AttributeError
| OverflowError.

(** The outcome of a call: a returned value or a raised exception. *)
Inductive outcome (A : Type) : Type :=
| Ok (a : A)
| Raise (e : exn).
Arguments Ok {A} a.
Arguments Raise {A} e.

Definition bind {A B} (m : outcome A) (f : A -> outcome B) : outcome B :=
  match m with
  | Ok a => f a
  | Raise e => Raise e
  end.

(** [==] on values: an [int] never equals a [str]. *)
Definition value_eqb (a b : value) : bool :=
  match a, b with
  | VStr s, VStr t => String.eqb s t
  | VInt x, VInt y => Z.eqb x y
  | _, _ => false
  end.

(** *** Characters *)

Definition code (c : ascii) : N := N_of_ascii c.

Definition between (lo hi : N) (c : ascii) : bool :=
  (N.leb lo (code c) && N.leb (code c) hi)%bool.

(** [str.isspace] on one code point below 256:
    TAB..CR, FS..US, SPACE, NEL (0x85) and NBSP (0xA0). *)
Definition isspace (c : ascii) : bool :=
  (between 9 13 c || between 28 32 c
   || N.eqb (code c) 133 || N.eqb (code c) 160)%bool.

Definition is_ascii_digit (c : ascii) : bool := between 48 57 c.

(** [str.isdigit] on one code point below 256: the ASCII digits and the
    superscripts two, three and one (0xB2, 0xB3, 0xB9). *)
Definition isdigit_char (c : ascii) : bool :=
  (is_ascii_digit c
   || N.eqb (code c) 178 || N.eqb (code c) 179 || N.eqb (code c) 185)%bool.

(** *** str methods *)

Fixpoint all_chars (p : ascii -> bool) (s : string) : bool :=
  match s with
  | EmptyString => true
  | String c s' => (p c && all_chars p s')%bool
  end.

(** [s.isdigit()]: non-empty and every character is a digit. *)
Definition isdigit (s : string) : bool :=
  match s with
  | EmptyString => false
  | _ => all_chars isdigit_char s
  end.

Definition startswith (s p : string) : bool := String.prefix p s.

(** [sub in s] *)
Fixpoint contains (sub s : string) : bool :=
  if String.prefix sub s then true
  else match s with
       | EmptyString => false
       | String _ s' => contains sub s'
       end.

Fixpoint lstrip (s : string) : string :=
  match s with
  | EmptyString => EmptyString
  | String c s' => if isspace c then lstrip s' else s
  end.

Fixpoint rstrip (s : string) : string :=
  match s with
  | EmptyString => EmptyString
  | String c s' =>
      match rstrip s' with
      | EmptyString => if isspace c then EmptyString else String c EmptyString
      | t => String c t
      end
  end.

(** [s.strip()] *)
Definition strip (s : string) : string := rstrip (lstrip s).

(** *** int(s) and int(s, base=16)

    The accepted literals: blanks, a sign, for base 16 an optional
    [0x]/[0X] prefix that one underscore may follow, then digits with
    single underscores between them, then blanks.  Code points from 127
    up are blanks (NEL, NBSP) or make the literal invalid.  For a base
    that is no power of two, a literal of more digits than the
    interpreter's limit is refused. *)

Definition int_space (c : ascii) : bool :=
  (between 9 13 c || N.eqb (code c) 32
   || N.eqb (code c) 133 || N.eqb (code c) 160)%bool.

Definition digit_value (c : ascii) : option Z :=
  if between 48 57 c then Some (Z.of_N (code c) - 48)
  else if between 97 122 c then Some (Z.of_N (code c) - 87)
  else if between 65 90 c then Some (Z.of_N (code c) - 55)
  else None.

Definition underscore : ascii := "_"%char.

(** [sys.get_int_max_str_digits()], at its default. *)
Definition max_str_digits : nat := 4300%nat.
Arguments max_str_digits : simpl never.

(** The bases whose conversion is linear and has no limit. *)
Definition binary_base (base : Z) : bool :=
  ((base =? 2) || (base =? 4) || (base =? 8) || (base =? 16)
   || (base =? 32))%bool.

(** Scans digits and underscores; [prev_us] tells that the previous
    character was an underscore, [seen] that a digit was read, [digits]
    how many were.  Gives the value, the number of digits and the text
    left. *)
Fixpoint scan_digits (base acc : Z) (prev_us seen : bool) (digits : nat)
         (s : string) : option (Z * nat * string) :=
  let finish :=
    if (prev_us || negb seen)%bool then None else Some (acc, digits, s) in
  match s with
  | EmptyString => finish
  | String c s' =>
      match digit_value c with
      | Some d =>
          if d <? base then
            scan_digits base (acc * base + d) false true (S digits) s'
          else finish
      | None =>
          if Ascii.eqb c underscore then
            if prev_us then None else scan_digits base acc true seen digits s'
          else finish
      end
  end.

Fixpoint drop_while (p : ascii -> bool) (s : string) : string :=
  match s with
  | EmptyString => EmptyString
  | String c s' => if p c then drop_while p s' else s
  end.

Definition strip_sign (s : string) : Z * string :=
  match s with
  | String "+" s' => (1, s')
  | String "-" s' => (-1, s')
  | _ => (1, s)
  end.

Definition strip_hex_prefix (s : string) : string :=
  match s with
  | String "0" (String x s') =>
      if (Ascii.eqb x "x" || Ascii.eqb x "X")%bool then
        match s' with
        | String "_" s'' => s''
        | _ => s'
        end
      else s
  | _ => s
  end.

Definition int_of_str (base : Z) (s : string) : outcome Z :=
  let (sign, s1) := strip_sign (drop_while int_space s) in
  let s2 := if base =? 16 then strip_hex_prefix s1 else s1 in
  if startswith s2 "_" then Raise ValueError
  else match scan_digits base 0 false false 0 s2 with
       | Some (n, digits, rest) =>
           if (negb (binary_base base) && (max_str_digits <? digits)%nat)%bool
           then Raise ValueError
           else match drop_while int_space rest with
                | EmptyString => Ok (sign * n)
                | _ => Raise ValueError
                end
       | None => Raise ValueError
       end.

(** [str(n)] for an integer. *)
Definition str_of_int (n : Z) : string :=
  NilEmpty.string_of_int (Z.to_int n).

(** *** dict: insertion-ordered, keys unique *)

Definition dict : Type := list (string * value).

Fixpoint get (k : string) (d : dict) : option value :=
  match d with
  | [] => None
  | (k', v) :: d' => if String.eqb k' k then Some v else get k d'
  end.

(** [k in d] *)
Definition mem (k : string) (d : dict) : bool :=
  match get k d with Some _ => true | None => false end.

(** [d[k] = v]: an existing key keeps its position. *)
Fixpoint set (k : string) (v : value) (d : dict) : dict :=
  match d with
  | [] => [(k, v)]
  | (k', v') :: d' =>
      if String.eqb k' k then (k', v) :: d' else (k', v') :: set k v d'
  end.

Fixpoint remove (k : string) (d : dict) : dict :=
  match d with
  | [] => []
  | (k', v') :: d' =>
      if String.eqb k' k then d' else (k', v') :: remove k d'
  end.

(** [d[k]] *)
Definition getitem (k : string) (d : dict) : outcome value :=
  match get k d with
  | Some v => Ok v
  | None => Raise (KeyError k)
  end.

(** [del d[k]] *)
Definition delitem (k : string) (d : dict) : outcome dict :=
  if mem k d then Ok (remove k d) else Raise (KeyError k).

(** [d.get(k, default)] *)
Definition get_default (k : string) (default : value) (d : dict) : value :=
  match get k d with
  | Some v => v
  | None => default
  end.

Definition keys (d : dict) : list string := map fst d.

(** [dict(... for k, v in d.items() if keep k)] *)
Definition filter_keys (keep : string -> bool) (d : dict) : dict :=
  filter (fun kv => keep (fst kv)) d.

(** *** Standard output

    A computation that prints: the lines written to stdout, in order,
    and how the computation ended.  What was printed before an
    exception stays printed. *)
Definition printed (A : Type) : Type := list string * outcome A.

Definition ret_io {A} (a : A) : printed A := ([], Ok a).

Definition bind_io {A B} (m : printed A) (f : A -> printed B) : printed B :=
  match m with
  | (out, Ok a) => let (out', r) := f a in (out ++ out', r)
  | (out, Raise e) => (out, Raise e)
  end.

Definition lift {A} (m : outcome A) : printed A := ([], m).

(** [print(s)] *)
Definition print (s : string) : printed unit := ([s], Ok tt).

End Py.

Import Py.

Declare Scope py_scope.
Delimit Scope py_scope with py.
Notation "x <- m ;; k" := (Py.bind m (fun x => k))
  (at level 61, m at next level, right associativity) : py_scope.
Local Open Scope py_scope.

Declare Scope io_scope.
Delimit Scope io_scope with io.
Notation "x <- m ;; k" := (Py.bind_io m (fun x => k))
  (at level 61, m at next level, right associativity) : io_scope.

(* ================================================================= *)
(** ** The regular expressions of the tokenizer                        *)
(* ================================================================= *)

Module Re.

(** The constructs the program's three patterns are built from. *)
Inductive regex : Type :=
| Lit (s : string)                 (* literal text *)
| Plus (p : ascii -> bool)         (* [class]+   (greedy) *)
| PlusLazy (p : ascii -> bool)     (* [class]+?  (lazy) *)
| Opt (r : regex)                  (* (?:r)?     (greedy) *)
| Seq (r1 r2 : regex)
| Alt (r1 r2 : regex)              (* r1|r2, left first *)
| Group (n : nat) (r : regex).     (* capture group number n *)

(** Capture groups that took part in the match, latest first. *)
Definition captures : Type := list (nat * string).

Fixpoint group (n : nat) (c : captures) : option string :=
  match c with
  | [] => None
  | (m, s) :: c' => if Nat.eqb m n then Some s else group n c'
  end.

Fixpoint strip_prefix (p s : string) : option string :=
  match p, s with
  | EmptyString, _ => Some s
  | String a p', String b s' =>
      if Ascii.eqb a b then strip_prefix p' s' else None
  | String _ _, EmptyString => None
  end.

Fixpoint take (n : nat) (s : string) : string :=
  match n, s with
  | S n', String c s' => String c (take n' s')
  | _, _ => EmptyString
  end.

(** The text consumed when going from [s] to its suffix [rest]. *)
Definition consumed (s rest : string) : string :=
  take (String.length s - String.length rest) s.

Section Matcher.
Context {R : Type}.

(** One or more characters of the class, longest run first. *)
Fixpoint plus_greedy (p : ascii -> bool) (s : string)
         (k : string -> option R) : option R :=
  match s with
  | EmptyString => None
  | String c s' =>
      if p c then
        match plus_greedy p s' k with
        | Some r => Some r
        | None => k s'
        end
      else None
  end.

(** One or more characters of the class, shortest run first. *)
Fixpoint plus_lazy (p : ascii -> bool) (s : string)
         (k : string -> option R) : option R :=
  match s with
  | EmptyString => None
  | String c s' =>
      if p c then
        match k s' with
        | Some r => Some r
        | None => plus_lazy p s' k
        end
      else None
  end.

(** Backtracking match of [r] at the head of [s]; [k] is tried on
    every way to match, in the engine's priority order, and the first
    success wins. *)
Fixpoint run (r : regex) (s : string) (c : captures)
         (k : string -> captures -> option R) : option R :=
  match r with
  | Lit l =>
      match strip_prefix l s with
      | Some rest => k rest c
      | None => None
      end
  | Plus p => plus_greedy p s (fun rest => k rest c)
  | PlusLazy p => plus_lazy p s (fun rest => k rest c)
  | Opt r1 =>
      match run r1 s c k with
      | Some x => Some x
      | None => k s c
      end
  | Seq r1 r2 => run r1 s c (fun rest c' => run r2 rest c' k)
  | Alt r1 r2 =>
      match run r1 s c k with
      | Some x => Some x
      | None => run r2 s c k
      end
  | Group n r1 =>
      run r1 s c (fun rest c' => k rest ((n, consumed s rest) :: c'))
  end.
End Matcher.

(** [re.match]: the pattern at the start of [s]; gives the rest of the
    text and the groups. *)
Definition match_ (r : regex) (s : string) : option (string * captures) :=
  run r s [] (fun rest c => Some (rest, c)).

(** [re.fullmatch] *)
Definition fullmatch (r : regex) (s : string) : option captures :=
  run r s [] (fun rest c =>
                match rest with
                | EmptyString => Some c
                | _ => None
                end).

(** [re.finditer]: leftmost matches, scanning left to right; [skip]
    counts the characters still covered by the previous match. *)
Fixpoint finditer_from (r : regex) (skip : nat) (s : string)
  : list captures :=
  match s with
  | EmptyString => []
  | String _ s' =>
      match skip with
      | S n => finditer_from r n s'
      | O =>
          match match_ r s with
          | Some (rest, c) =>
              c :: finditer_from r
                     (String.length s - String.length rest - 1) s'
          | None => finditer_from r 0 s'
          end
      end
  end.

Definition finditer (r : regex) (s : string) : list captures :=
  finditer_from r 0 s.

(** [re.sub(r, '', s)] for a pattern anchored with [^]: only a match
    at the start of [s] is replaced. *)
Definition sub_anchored (r : regex) (s : string) : string :=
  match match_ r s with
  | Some (rest, _) => rest
  | None => s
  end.

(** *** Character classes *)

Definition chr_is (a : ascii) (c : ascii) : bool := Ascii.eqb a c.

(** [\d] on code points below 256 *)
Definition digit (c : ascii) : bool := Py.is_ascii_digit c.
(** [.] : anything but a newline *)
Definition dot (c : ascii) : bool := negb (N.eqb (Py.code c) 10).
(** [[^ ]] *)
Definition not_space (c : ascii) : bool := negb (N.eqb (Py.code c) 32).
(** [[0-9_A-Z]] *)
Definition tag_char (c : ascii) : bool :=
  (Py.between 48 57 c || chr_is "_" c || Py.between 65 90 c)%bool.
(** [[a-zA-Z\-\_]] *)
Definition key_char (c : ascii) : bool :=
  (Py.between 97 122 c || Py.between 65 90 c
   || chr_is "-" c || chr_is "_" c)%bool.

End Re.

Import Re.

Notation "r1 +++ r2" := (Re.Seq r1 r2) (at level 60, right associativity).

(* ================================================================= *)
(** ** audit_pretty/__main__.py: the tokenizer                         *)
(* ================================================================= *)

Module Tokenizer.

Definition quote : string := String "034"%char EmptyString.

(** [r'^\[\d+\.\d+\] audit: '] *)
Definition dmesg_prefix : regex :=
  Lit "[" +++ Plus digit +++ Lit "." +++ Plus digit +++ Lit "] audit: ".

(** [r'(type=[0-9_A-Z]+) (?:msg=)?audit\((\d+)\.\d+:\d+\): (.+)'] *)
Definition audit_line : regex :=
  Group 1 (Lit "type=" +++ Plus tag_char) +++ Lit " " +++ Opt (Lit "msg=")
  +++ Lit "audit(" +++ Group 2 (Plus digit) +++ Lit "." +++ Plus digit
  +++ Lit ":" +++ Plus digit +++ Lit "): " +++ Group 3 (Plus dot).

(** [r'([a-zA-Z\-\_]+)=(?:"(.+?)"|([^ ]+))'] *)
Definition field : regex :=
  Group 1 (Plus key_char) +++ Lit "="
  +++ Alt (Lit quote +++ Group 2 (PlusLazy dot) +++ Lit quote)
          (Group 3 (Plus not_space)).

(** [match.group(n)] used as a [str]: concatenating [None] is a
    [TypeError]. *)
Definition group_str (n : nat) (m : captures) : outcome string :=
  match group n m with
  | Some s => Ok s
  | None => Raise TypeError
  end.

(** Lines 16-25: the pre-filter, the dmesg prefix, the shape check and
    the rewriting to [type=TAG time=SECONDS BODY]. *)
Definition normalize (line : string) : outcome (option string) :=
  let trimmed := strip line in
  if (Nat.eqb (String.length trimmed) 0
      || negb (contains "audit" trimmed))%bool then Ok None
  else
    let trimmed :=
      if startswith trimmed "[" then sub_anchored dmesg_prefix trimmed
      else trimmed in
    match fullmatch audit_line trimmed with
    | None => Ok None
    | Some m =>
        g1 <- group_str 1 m ;;
        g2 <- group_str 2 m ;;
        g3 <- group_str 3 m ;;
        Ok (Some (g1 ++ " " ++ "time=" ++ g2 ++ " " ++ g3)%string)
    end.

(** Lines 30-33, the body of the [finditer] loop.  Group 1 is not
    optional in [field], so a match always carries it. *)
Definition store_match (result : dict) (m : captures) : dict :=
  match group 1 m with
  | None => result
  | Some key =>
      let result :=
        match group 2 m with
        | Some v => set key (VStr v) result
        | None => result
        end in
      match group 3 m with
      | Some v => set key (VStr v) result
      | None => result
      end
  end.

(** Lines 28-33 *)
Definition fields (trimmed : string) : dict :=
  fold_left store_match (finditer field trimmed) [].

(** [v.isdigit()] and [v.startswith('0x')] are [str] methods. *)
Definition str_method (f : string -> bool) (v : value) : outcome bool :=
  match v with
  | VStr s => Ok (f s)
  | VInt _ => Raise AttributeError
  end.

Definition int_ (base : Z) (v : value) : outcome Z :=
  match v with
  | VStr s => int_of_str base s
  | VInt _ => Raise TypeError
  end.

(** Lines 36-39, the body of the [try]: the dict as the statements left
    it, and how the block ended. *)
Definition coerce_body (k : string) (v : value) (result : dict)
  : dict * outcome unit :=
  match str_method isdigit v with
  | Raise e => (result, Raise e)
  | Ok is_dec =>
      let step1 :=
        if is_dec then
          match int_ 10 v with
          | Ok n => (set k (VInt n) result, Ok tt)
          | Raise e => (result, Raise e)
          end
        else (result, Ok tt) in
      match step1 with
      | (result, Raise e) => (result, Raise e)
      | (result, Ok _) =>
          match str_method (fun s => startswith s "0x") v with
          | Raise e => (result, Raise e)
          | Ok is_hex =>
              if is_hex then
                match int_ 16 v with
                | Ok n => (set k (VInt n) result, Ok tt)
                | Raise e => (result, Raise e)
                end
              else (result, Ok tt)
          end
      end
  end.

(** Lines 35-41: [try: ... except ValueError: pass] *)
Definition coerce_field (result : dict) (kv : string * value) : outcome dict :=
  match coerce_body (fst kv) (snd kv) result with
  | (result, Ok _) => Ok result
  | (result, Raise ValueError) => Ok result
  | (_, Raise e) => Raise e
  end.

(** Lines 34-41: the loop over [result.items()].  Only the value of the
    key being visited is assigned, so the pairs the loop sees are those
    of the dict as it was when the loop started. *)
Fixpoint coerce_items (items : list (string * value)) (result : dict)
  : outcome dict :=
  match items with
  | [] => Ok result
  | kv :: rest =>
      result <- coerce_field result kv ;;
      coerce_items rest result
  end.

Definition parse_message (line : string) : outcome (option dict) :=
  trimmed <- normalize line ;;
  match trimmed with
  | None => Ok None
  | Some trimmed =>
      let result := fields trimmed in
      result <- coerce_items result result ;;
      Ok (Some result)
  end.

End Tokenizer.

Import Tokenizer.

(* ================================================================= *)
(** ** audit_pretty/__main__.py: the filter                            *)
(* ================================================================= *)

Module Filter.

(** The options [should_process] and the loop of [main] read.
    ([verbose] and [color] only set globals of the formatter.) *)
Record args : Type := {
  since : Z;
  until : Z;
  exclude : list string;
  only : list string;
  hide_unknown : bool;
  merge : bool;
  count : bool
}.

(** [v < n] and [v > n] for an integer [n]: ordering a [str] against an
    [int] is a [TypeError]. *)
Definition lt_int (v : value) (n : Z) : outcome bool :=
  match v with
  | VInt t => Ok (t <? n)
  | VStr _ => Raise TypeError
  end.

Definition gt_int (v : value) (n : Z) : outcome bool :=
  match v with
  | VInt t => Ok (t >? n)
  | VStr _ => Raise TypeError
  end.

(** [v in l] for a list of strings *)
Definition value_in (v : value) (l : list string) : bool :=
  existsb (fun s => value_eqb v (VStr s)) l.

Section ShouldProcess.

(** [ty in pretty_printers]: the tags with an explicit registration. *)
Variable registered : value -> bool.

Definition should_process (args : args) (msg : option dict) : outcome bool :=
  match msg with
  | None => Ok false
  | Some msg =>
      (* msg['time'] < args.since or msg['time'] > args.until *)
      t <- getitem "time" msg ;;
      before <- lt_int t (since args) ;;
      outside <- (if before then Ok true
                  else t <- getitem "time" msg ;; gt_int t (until args)) ;;
      if outside then Ok false
      else
        (* len(args.exclude) != 0 and msg['type'] in args.exclude or
           len(args.only) != 0 and msg['type'] not in args.only *)
        excluded <- (if negb (Nat.eqb (List.length (exclude args)) 0)
                     then ty <- getitem "type" msg ;;
                          Ok (value_in ty (exclude args))
                     else Ok false) ;;
        skipped <- (if excluded then Ok true
                    else if negb (Nat.eqb (List.length (only args)) 0)
                         then ty <- getitem "type" msg ;;
                              Ok (negb (value_in ty (only args)))
                         else Ok false) ;;
        if skipped then Ok false
        else
          (* msg['type'] not in pretty_printers and args.hide_unknown *)
          ty <- getitem "type" msg ;;
          if (negb (registered ty) && hide_unknown args)%bool then Ok false
          else Ok true
  end.

End ShouldProcess.

End Filter.

Import Filter.

(* ================================================================= *)
(** ** The equivalence key                                             *)
(* ================================================================= *)

Module Frozen.

Definition option_value_eqb (a b : option value) : bool :=
  match a, b with
  | Some x, Some y => value_eqb x y
  | None, None => true
  | _, _ => false
  end.

(** Modelled from the spec: [audit_pretty/frozendict.py] (the class
    [FrozenDict]) is not among the sources.  The spec makes the key an
    order-independent form of the significant fields: two keys are equal
    exactly when they have the same field set and the same values.  The
    object keeps the fields in the order of the dict it was built from;
    equality (and so hashing) looks only at what each field holds. *)
Definition FrozenDict (d : dict) : dict := d.

Definition FrozenDict_eqb (a b : dict) : bool :=
  forallb (fun k => option_value_eqb (get k a) (get k b)) (keys a ++ keys b).

(** [already_seen]: a dict from keys to counts, in insertion order. *)
Definition table : Type := list (dict * Z).

(** [already_seen.get(key)] *)
Fixpoint seen_get (key : dict) (t : table) : option Z :=
  match t with
  | [] => None
  | (k, n) :: t' => if FrozenDict_eqb k key then Some n else seen_get key t'
  end.

(** [key in already_seen.keys()] *)
Definition seen_mem (key : dict) (t : table) : bool :=
  match seen_get key t with Some _ => true | None => false end.

(** [already_seen[key] = n]: an entry that exists keeps its place and
    the key object it was created with. *)
Fixpoint seen_set (key : dict) (n : Z) (t : table) : table :=
  match t with
  | [] => [(key, n)]
  | (k, m) :: t' =>
      if FrozenDict_eqb k key then (k, n) :: t' else (k, m) :: seen_set key n t'
  end.

(** [already_seen[key] = already_seen.get(key, 0) + 1] *)
Definition bump (key : dict) (t : table) : table :=
  seen_set key (match seen_get key t with Some n => n | None => 0 end + 1) t.

End Frozen.

Import Frozen.

(* ================================================================= *)
(** ** Dict objects                                                    *)
(* ================================================================= *)

(** The significant-fields extractors copy and mutate dict objects, so
    they run on a store of objects: a reference is an address in it. *)
Module Obj.

Definition ref : Type := nat.
Definition heap : Type := list dict.

Definition load (r : ref) (h : heap) : dict := nth r h [].

Fixpoint store (r : ref) (d : dict) (h : heap) : heap :=
  match h, r with
  | [], _ => []
  | _ :: h', O => d :: h'
  | x :: h', S r' => x :: store r' d h'
  end.

(** A computation on the store that may raise. *)
Definition obj (A : Type) : Type := heap -> heap * outcome A.

Definition ret {A} (a : A) : obj A := fun h => (h, Ok a).

Definition bind {A B} (m : obj A) (f : A -> obj B) : obj B :=
  fun h =>
    match m h with
    | (h', Ok a) => f a h'
    | (h', Raise e) => (h', Raise e)
    end.

(** A dict display or [dict(...)]: a fresh object. *)
Definition new (d : dict) : obj ref :=
  fun h => (h ++ [d], Ok (List.length h)).

(** [r.copy()] *)
Definition copy (r : ref) : obj ref :=
  fun h => new (load r h) h.

(** [r[k]] *)
Definition getitem (r : ref) (k : string) : obj value :=
  fun h => (h, Py.getitem k (load r h)).

(** [k in r] *)
Definition mem (r : ref) (k : string) : obj bool :=
  fun h => (h, Ok (Py.mem k (load r h))).

(** [del r[k]] *)
Definition delitem (r : ref) (k : string) : obj unit :=
  fun h =>
    match Py.delitem k (load r h) with
    | Ok d => (store r d h, Ok tt)
    | Raise e => (h, Raise e)
    end.

(** Calling an extractor on a record and reading the object it
    returns.  The caller holds the record at address 0. *)
Definition call (f : ref -> obj ref) (msg : dict) : outcome dict :=
  match f O [msg] with
  | (h, Ok r) => Ok (load r h)
  | (_, Raise e) => Raise e
  end.

End Obj.

Declare Scope obj_scope.
Delimit Scope obj_scope with obj.
Notation "x <- m ;; k" := (Obj.bind m (fun x => k))
  (at level 61, m at next level, right associativity) : obj_scope.

(* ================================================================= *)
(** ** audit_pretty/parsers.py                                         *)
(* ================================================================= *)

Module Parsers.

Section Plugins.

(** The formatter and the lookup tables live in modules that are not
    part of the sources ([pretty_utils], [lowlevel_utils], [os]); the
    plugins only pass values to them. *)
Variable pretty_helper :
  string -> value -> string -> string -> dict -> dict -> string.
Variable decode_signal : option value -> value.
Variable decode_syscall : option value -> value -> value.
Variable strerror : Z -> string.

Definition unknown : value := VStr "?".

Definition default_pretty_printer (msg : dict) (suffix : string)
  : printed string :=
  (ty <- lift (getitem "type" msg) ;;
   label <- lift (match ty with
                  | VStr s => Ok ("Unknown message type (type=" ++ s ++ ")")%string
                  | VInt _ => Raise TypeError
                  end) ;;
   ret_io (pretty_helper label (get_default "time" (VInt 0) msg) "warn" suffix
             (filter_keys (fun k => negb (String.eqb k "time" || String.eqb k "type")) msg)
             []))%io.

Definition apparmor_pretty (msg : dict) (suffix : string) : printed string :=
  (kind <- lift (getitem "apparmor" msg) ;;
   if value_eqb kind (VStr "DENIED") then
     ret_io (pretty_helper "AppArmor policy violation"
               (get_default "time" (VInt 0) msg) "warn" suffix
               [("Operation", get_default "operation" unknown msg);
                ("Profile", get_default "profile" unknown msg);
                ("Target", get_default "name" (get_default "peer" unknown msg) msg);
                ("Denied mask", get_default "denied_mask" unknown msg)]
               [("Requested mask", get_default "requested_mask" unknown msg);
                ("Process ID", get_default "pid" unknown msg);
                ("FS UID", get_default "fsuid" unknown msg);
                ("OUID", get_default "ouid" unknown msg)])
   else
     _ <- print "Unknown AppArmor message type, printing as is." ;;
     default_pretty_printer msg suffix)%io.

(** The local helper of both extractors. *)
Definition del_if_present (m : Obj.ref) (key : string) : Obj.obj unit :=
  (present <- Obj.mem m key ;;
   if present then Obj.delitem m key else Obj.ret tt)%obj.

Definition apparmor_main_info (msg : Obj.ref) : Obj.obj Obj.ref :=
  (m <- Obj.copy msg ;;
   kind <- Obj.getitem m "apparmor" ;;
   if value_eqb kind (VStr "DENIED") then
     _ <- Obj.delitem m "time" ;;
     _ <- Obj.delitem m "pid" ;;
     _ <- Obj.delitem m "comm" ;;
     _ <- del_if_present m "fsuid" ;;
     _ <- del_if_present m "ouid" ;;
     Obj.ret m
   else Obj.ret m)%obj.

(** [os.strerror] takes a C [int]. *)
Definition c_int (n : Z) : bool :=
  ((-2147483648 <=? n) && (n <=? 2147483647))%bool.

(** ['code' in msg and msg['code'] != 0], then [os.strerror]. *)
Definition errno_text (msg : dict) : outcome value :=
  match get "code" msg with
  | None => Ok unknown
  | Some (VInt 0) => Ok unknown
  | Some (VInt code) =>
      if c_int code then Ok (VStr (strerror code)) else Raise OverflowError
  | Some (VStr _) => Raise TypeError
  end.

Definition seccomp_pretty (msg : dict) (suffix : string) : printed string :=
  (errno <- lift (errno_text msg) ;;
   ret_io (pretty_helper "seccomp policy violation"
             (get_default "time" (VInt 0) msg) "warn" suffix
             [("Executable", get_default "exe" unknown msg);
              ("Signal", decode_signal (get "sig" msg));
              ("Errno", errno);
              ("System call",
               decode_syscall (get "syscall" msg)
                              (get_default "arch" (VStr "c000003e") msg))]
             [("User ID", get_default "uid" unknown msg);
              ("Group ID", get_default "gid" unknown msg);
              ("AUID", get_default "auid" unknown msg);
              ("PID", get_default "pid" unknown msg);
              ("Thread name", get_default "comm" unknown msg)]))%io.

Definition seccomp_main_info (msg : Obj.ref) : Obj.obj Obj.ref :=
  (exe <- Obj.getitem msg "exe" ;;
   syscall <- Obj.getitem msg "syscall" ;;
   Obj.new [("type", VStr "SECCOMP"); ("exe", exe); ("syscall", syscall)])%obj.

Definition default_info_filter (msg : Obj.ref) : Obj.obj Obj.ref :=
  (m <- Obj.copy msg ;;
   _ <- del_if_present m "time" ;;
   _ <- del_if_present m "pid" ;;
   _ <- del_if_present m "fsuid" ;;
   _ <- del_if_present m "comm" ;;
   Obj.ret msg)%obj.

(** [pretty_printers]: a [defaultdict] with entries for AVC and SECCOMP. *)
Definition pretty_printers (ty : value) : dict -> string -> printed string :=
  match ty with
  | VStr "AVC" => apparmor_pretty
  | VStr "SECCOMP" => seccomp_pretty
  | _ => default_pretty_printer
  end.

(** [main_info_filters]: likewise. *)
Definition main_info_filters (ty : value) : Obj.ref -> Obj.obj Obj.ref :=
  match ty with
  | VStr "AVC" => apparmor_main_info
  | VStr "SECCOMP" => seccomp_main_info
  | _ => default_info_filter
  end.

End Plugins.

(** The tags with an explicit entry in the two tables. *)
Definition registered (ty : value) : bool :=
  match ty with
  | VStr "AVC" => true
  | VStr "SECCOMP" => true
  | _ => false
  end.

End Parsers.

(* ================================================================= *)
(** ** audit_pretty/parsers/seccomp.py                                 *)
(* ================================================================= *)

Module Seccomp.

Section Plugin.

(** [format_helper], [datetime.fromtimestamp] and the decoders come
    from modules outside the sources; an absent value is [None]. *)
Variable format_helper :
  string -> option value -> string -> string ->
  list (string * option value) -> list (string * option value) -> string.
Variable fromtimestamp : value -> value.
Variable decode_signal : value -> value.
Variable decode_syscall : value -> value -> value.

(** [msg.get('sig', 0) != 0] *)
Definition has_signal (msg : dict) : bool :=
  negb (value_eqb (get_default "sig" (VInt 0) msg) (VInt 0)).

Definition seccomp_pretty (msg : dict) (suffix : string) : outcome string :=
  timestamp <- (if mem "time" msg
                then t <- getitem "time" msg ;; Ok (Some (fromtimestamp t))
                else Ok None) ;;
  signal <- (if has_signal msg
             then s <- getitem "sig" msg ;; Ok (Some (decode_signal s))
             else Ok None) ;;
  syscall <- getitem "syscall" msg ;;
  arch <- getitem "arch" msg ;;
  Ok (format_helper "seccomp policy violation" timestamp "warn" suffix
        [("Executable", get "exe" msg);
         ("Signal", signal);
         ("System call", Some (decode_syscall syscall arch))]
        [("User ID", get "uid" msg);
         ("Group ID", get "gid" msg);
         ("AUID", get "auid" msg);
         ("PID", get "pid" msg);
         ("Thread name", get "comm" msg)]).

End Plugin.

End Seccomp.

(* ================================================================= *)
(** ** audit_pretty/__main__.py: the loop of [main]                    *)
(* ================================================================= *)

Module Main.

Section Loop.

(** The two tables of the type registry, each applied to a tag:
    [main_info_filters[tag]] and [pretty_printers[tag]].  A renderer
    returns its block; what it prints itself goes to stdout. *)
Variable main_info_filters : value -> dict -> outcome dict.
Variable pretty_printers : value -> dict -> string -> printed string.
Variable registered : value -> bool.

(** Lines 138-147: one record that passed the filter. *)
Definition process (args : args) (msg : dict) (already_seen : table)
  : printed table :=
  (ty <- lift (getitem "type" msg) ;;
   main_info <- lift (main_info_filters ty msg) ;;
   ty <- lift (getitem "type" msg) ;;
   result <- pretty_printers ty msg EmptyString ;;
   if (merge args || count args)%bool then
     let hashable_info := FrozenDict main_info in
     _ <- (if negb (seen_mem hashable_info already_seen) then
             if negb (count args) then print result else ret_io tt
           else ret_io tt) ;;
     ret_io (bump hashable_info already_seen)
   else
     _ <- print result ;;
     ret_io already_seen)%io.

(** Lines 132-147: the loop over the lines of stdin.  A record that
    is [None] cannot be subscripted. *)
Fixpoint read_loop (args : args) (stdin : list string) (already_seen : table)
  : printed table :=
  match stdin with
  | [] => ret_io already_seen
  | line :: rest =>
      (msg <- lift (parse_message line) ;;
       go <- lift (should_process registered args msg) ;;
       match go, msg with
       | false, _ => read_loop args rest already_seen
       | true, Some msg =>
           already_seen <- process args msg already_seen ;;
           read_loop args rest already_seen
       | true, None => lift (Raise TypeError)
       end)%io
  end.

(** [ '(' + str(count) + ')' ] *)
Definition count_suffix (count : Z) : string :=
  ("(" ++ str_of_int count ++ ")")%string.

(** Lines 149-151: the summary printed at the end of the input. *)
Fixpoint flush (already_seen : table) : printed unit :=
  match already_seen with
  | [] => ret_io tt
  | (info, count) :: rest =>
      (ty <- lift (getitem "type" info) ;;
       result <- pretty_printers ty info (count_suffix count) ;;
       _ <- print result ;;
       flush rest)%io
  end.

(** Lines 125-126: [--count] turns [--merge] on. *)
Definition count_implies_merge (a : args) : args :=
  if count a then
    {| since := since a; until := until a; exclude := exclude a;
       only := only a; hide_unknown := hide_unknown a;
       merge := true; count := count a |}
  else a.

(** Lines 125-151 *)
Definition main (args : args) (stdin : list string) : printed unit :=
  let args := count_implies_merge args in
  (already_seen <- read_loop args stdin [] ;;
   if count args then flush already_seen else ret_io tt)%io.

End Loop.

End Main.

(* ================================================================= *)
(** ** What the specification says, in its own words                   *)
(* ================================================================= *)

Module Spec.

(** *** The shape of an audit line *)

(** A non-empty run of characters of one class. *)
Definition run_of (p : ascii -> bool) (s : string) : Prop :=
  s <> EmptyString /\ all_chars p s = true.

(** [type=<TAG> [msg=]audit(<seconds>.<subseconds>:<sequence>): <body>] *)
Definition audit_shape (t tag seconds body : string) : Prop :=
  exists msg_eq subseconds sequence,
    t = ("type=" ++ tag ++ " " ++ msg_eq ++ "audit(" ++ seconds ++ "."
          ++ subseconds ++ ":" ++ sequence ++ "): " ++ body)%string
    /\ run_of tag_char tag
    /\ (msg_eq = EmptyString \/ msg_eq = "msg=")
    /\ run_of digit seconds
    /\ run_of digit subseconds
    /\ run_of digit sequence
    /\ run_of dot body.

(** [[<digits>.<digits>] audit: ] in front of the rest of the line *)
Definition dmesg_stamped (t rest : string) : Prop :=
  exists a b,
    t = ("[" ++ a ++ "." ++ b ++ "] audit: " ++ rest)%string
    /\ run_of digit a /\ run_of digit b.

Definition blank (line : string) : Prop := all_chars isspace line = true.

(** A line has the shape when, between blanks, it is an audit line with
    or without the kernel time stamp in front. *)
Definition line_shape (line tag seconds body : string) : Prop :=
  exists a t b,
    line = (a ++ t ++ b)%string /\ blank a /\ blank b
    /\ (audit_shape t tag seconds body
        \/ exists rest,
             dmesg_stamped t rest /\ audit_shape rest tag seconds body).

(** *** Coercion of field values *)

Definition is_decimal (s : string) : bool :=
  match s with
  | EmptyString => false
  | _ => all_chars is_ascii_digit s
  end.

Fixpoint decimal_from (acc : Z) (s : string) : Z :=
  match s with
  | EmptyString => acc
  | String c s' => decimal_from (10 * acc + (Z.of_N (code c) - 48)) s'
  end.

(** The number a string of decimal digits denotes. *)
Definition decimal_value (s : string) : Z := decimal_from 0 s.

(** All decimal digits: the integer, or the string when [int] refuses
    its length.  Else a [0x] start: the integer the hexadecimal literal
    denotes, or the string when it denotes none.  Else the string. *)
Definition coerced (s : string) : value :=
  if is_decimal s then
    if (String.length s <=? max_str_digits)%nat then VInt (decimal_value s)
    else VStr s
  else if startswith s "0x" then
    match int_of_str 16 s with
    | Ok n => VInt n
    | Raise _ => VStr s
    end
  else VStr s.

Definition coerced_value (v : value) : value :=
  match v with
  | VStr s => coerced s
  | VInt n => VInt n
  end.

(** *** Aggregation *)

(** How many keys of the stream equal [key]. *)
Definition occurrences (key : dict) (stream : list dict) : Z :=
  Z.of_nat (List.length (filter (FrozenDict_eqb key) stream)).

(** The keys of the stream without repeats, each at the place of its
    first occurrence and as it was on that occurrence. *)
Fixpoint first_seen (stream : list dict) : list dict :=
  match stream with
  | [] => []
  | key :: rest =>
      key :: filter (fun k => negb (FrozenDict_eqb key k)) (first_seen rest)
  end.

(** The table a stream of keys ends with: one entry per distinct key, in
    first-occurrence order, counting the occurrences. *)
Definition summary (stream : list dict) : table :=
  map (fun key => (key, occurrences key stream)) (first_seen stream).

End Spec.

(** *** What a pattern matches

    [matches r s c c']: the pattern [r] matches exactly the text [s],
    and the groups [c] known before become [c']. *)
Inductive matches : regex -> string -> captures -> captures -> Prop :=
| matches_lit l c : matches (Lit l) l c c
| matches_plus p s c :
    Spec.run_of p s -> matches (Plus p) s c c
| matches_plus_lazy p s c :
    Spec.run_of p s -> matches (PlusLazy p) s c c
| matches_opt_some r s c c' :
    matches r s c c' -> matches (Opt r) s c c'
| matches_opt_none r c : matches (Opt r) EmptyString c c
| matches_seq r1 r2 s1 s2 c c1 c2 :
    matches r1 s1 c c1 -> matches r2 s2 c1 c2 ->
    matches (r1 +++ r2) (s1 ++ s2)%string c c2
| matches_alt_l r1 r2 s c c' :
    matches r1 s c c' -> matches (Alt r1 r2) s c c'
| matches_alt_r r1 r2 s c c' :
    matches r2 s c c' -> matches (Alt r1 r2) s c c'
| matches_group n r s c c' :
    matches r s c c' -> matches (Group n r) s c ((n, s) :: c').

(* ================================================================= *)
(** ** Vocabulary of the proofs                                        *)
(* ================================================================= *)

(** The text handed to the field scanner. *)
Definition rewritten (tag seconds body : string) : string :=
  ("type=" ++ tag ++ " time=" ++ seconds ++ " " ++ body)%string.

(** Every value is still a [str]. *)
Definition all_str (d : dict) : Prop :=
  Forall (fun kv => exists s, snd kv = VStr s) d.

Definition coerce_kv (kv : string * value) : string * value :=
  (fst kv, Spec.coerced_value (snd kv)).

(** The text goes on with no character of the class. *)
Definition stops (p : ascii -> bool) (rest : string) : Prop :=
  match rest with
  | EmptyString => True
  | String c _ => p c = false
  end.

(** What one match stores under the key [k], if anything. *)
Definition stored (m : captures) (k : string) : option value :=
  match group 1 m with
  | None => None
  | Some key =>
      if String.eqb key k then
        match group 3 m, group 2 m with
        | Some v, _ => Some (VStr v)
        | None, Some v => Some (VStr v)
        | None, None => None
        end
      else None
  end.

(** No two entries of the table have equal keys. *)
Fixpoint distinct (l : list dict) : Prop :=
  match l with
  | [] => True
  | k :: l' => (forall k', In k' l' -> FrozenDict_eqb k k' = false)
               /\ distinct l'
  end.

(** Whether a key equal to [key] occurs in the stream. *)
Definition seen_in (key : dict) (stream : list dict) : bool :=
  existsb (fun k => FrozenDict_eqb k key) stream.

Ltac invert_matches :=
  repeat match goal with
         | H : matches (Lit _) _ _ _ |- _ => inversion H; subst; clear H
         | H : matches (Plus _) _ _ _ |- _ => inversion H; subst; clear H
         | H : matches (PlusLazy _) _ _ _ |- _ => inversion H; subst; clear H
         | H : matches (Opt _) _ _ _ |- _ => inversion H; subst; clear H
         | H : matches (_ +++ _) _ _ _ |- _ => inversion H; subst; clear H
         | H : matches (Alt _ _) _ _ _ |- _ => inversion H; subst; clear H
         | H : matches (Group _ _) _ _ _ |- _ => inversion H; subst; clear H
         end.

Ltac by_cases_on_char c :=
  destruct c as [[] [] [] [] [] [] [] []]; vm_compute; reflexivity.

(** What a record the filter lets through gives: its key, the lines
    its renderer prints itself, and the block the renderer returns. *)
Record shown : Type := Shown {
  shown_key : dict;
  shown_prints : list string;
  shown_block : string
}.

Section Runs.

Variable main_info_filters : value -> dict -> outcome dict.
Variable pretty_printers : value -> dict -> string -> printed string.
Variable registered : value -> bool.

(** The lines of a stream and what the records it lets through give,
    when every extractor and renderer call on the way returns. *)
Inductive accepts (a : args) : list string -> list shown -> Prop :=
| accepts_end : accepts a [] []
| accepts_skip line rest items msg :
    parse_message line = Ok msg ->
    should_process registered a msg = Ok false ->
    accepts a rest items ->
    accepts a (line :: rest) items
| accepts_take line rest items msg ty info diag text :
    parse_message line = Ok (Some msg) ->
    should_process registered a (Some msg) = Ok true ->
    get "type" msg = Some ty ->
    main_info_filters ty msg = Ok info ->
    pretty_printers ty msg EmptyString = (diag, Ok text) ->
    accepts a rest items ->
    accepts a (line :: rest) (Shown (FrozenDict info) diag text :: items).

(** The entries of a table rendered: each from the record it stores,
    with its count between parentheses as suffix, giving the lines the
    renderer prints itself and the block it returns. *)
Definition rendered (t : table) (outs : list (list string * string)) : Prop :=
  Forall2 (fun (entry : dict * Z) (out : list string * string) =>
             exists ty,
               get "type" (fst entry) = Some ty
               /\ pretty_printers ty (fst entry)
                    ("(" ++ str_of_int (snd entry) ++ ")")%string
                  = (fst out, Ok (snd out)))
          t outs.

End Runs.

(** What the renderers print themselves while a stream is read. *)
Definition stream_prints (items : list shown) : list string :=
  flat_map shown_prints items.

(** What merge mode prints for a stream: for each record what its
    renderer prints itself, then its block when its key equals no key
    met before. *)
Fixpoint merge_prints (before : list dict) (items : list shown)
  : list string :=
  match items with
  | [] => []
  | item :: rest =>
      shown_prints item
        ++ (if seen_in (shown_key item) before then [] else [shown_block item])
        ++ merge_prints (before ++ [shown_key item]) rest
  end.

(** What the summary prints: for each entry what its renderer prints
    itself, then its block. *)
Definition summary_prints (outs : list (list string * string)) : list string :=
  flat_map (fun out => fst out ++ [snd out]) outs.

(* ================================================================= *)
(** ** Sample collaborators                                            *)
(* ================================================================= *)

(** A plain formatter and constant lookup tables, to run the plugins
    on concrete records. *)
Module Sample.

Definition show (v : value) : string :=
  match v with
  | VStr s => s
  | VInt n => str_of_int n
  end.

Definition pretty_helper (label : string) (time_ : value)
           (urgency suffix : string) (info extra_info : dict) : string :=
  (label ++ suffix ++ ":"
   ++ String.concat "," (map (fun kv => fst kv ++ "=" ++ show (snd kv)) info))%string.

Definition decode_signal (sig : option value) : value := VStr "?".
Definition decode_syscall (nr : option value) (arch : value) : value :=
  match nr with
  | Some v => v
  | None => VStr "?"
  end.
Definition strerror (code : Z) : string := str_of_int code.

(** The two tables of [parsers.py], as the loop of [main] uses them. *)
Definition main_info_filters (ty : value) (msg : dict) : outcome dict :=
  Obj.call (Parsers.main_info_filters ty) msg.

Definition pretty_printers : value -> dict -> string -> printed string :=
  Parsers.pretty_printers pretty_helper decode_signal decode_syscall strerror.

Definition seccomp_line : string :=
  "type=SECCOMP msg=audit(1600000000.123:45): pid=999 ip=0x7f arch=c000003e code=0xzz".

Definition seccomp_rewritten : string :=
  "type=SECCOMP time=1600000000 pid=999 ip=0x7f arch=c000003e code=0xzz".

(** Two AppArmor denials of the same event by different processes. *)
Definition denial_1 : string :=
  "type=AVC msg=audit(1600000000.123:45): apparmor=DENIED operation=open profile=firefox name=/etc/passwd denied_mask=r pid=999 comm=firefox".

Definition denial_2 : string :=
  "type=AVC msg=audit(1600000007.456:46): apparmor=DENIED operation=open profile=firefox name=/etc/passwd denied_mask=r pid=1001 comm=firefox".

Definition denial_record (time_ pid : Z) : dict :=
  [("type", VStr "AVC"); ("time", VInt time_); ("apparmor", VStr "DENIED");
   ("operation", VStr "open"); ("profile", VStr "firefox");
   ("name", VStr "/etc/passwd"); ("denied_mask", VStr "r");
   ("pid", VInt pid); ("comm", VStr "firefox")].

Definition denial_key : dict :=
  [("type", VStr "AVC"); ("apparmor", VStr "DENIED");
   ("operation", VStr "open"); ("profile", VStr "firefox");
   ("name", VStr "/etc/passwd"); ("denied_mask", VStr "r")].

Definition denial_block (suffix : string) : string :=
  ("AppArmor policy violation" ++ suffix
   ++ ":Operation=open,Profile=firefox,Target=/etc/passwd,Denied mask=r")%string.

(** An AppArmor record that is no denial. *)
Definition allowed_line : string :=
  "type=AVC msg=audit(1600000000.123:45): apparmor=ALLOWED operation=open profile=firefox name=/etc/passwd pid=999 comm=firefox".

Definition allowed_record : dict :=
  [("type", VStr "AVC"); ("time", VInt 1600000000);
   ("apparmor", VStr "ALLOWED"); ("operation", VStr "open");
   ("profile", VStr "firefox"); ("name", VStr "/etc/passwd");
   ("pid", VInt 999); ("comm", VStr "firefox")].

Definition notice : string :=
  "Unknown AppArmor message type, printing as is.".

Definition allowed_block (suffix : string) : string :=
  ("Unknown message type (type=AVC)" ++ suffix
   ++ ":apparmor=ALLOWED,operation=open,profile=firefox,name=/etc/passwd,pid=999,comm=firefox")%string.

Definition options (since until : Z) (merge count : bool) : args :=
  {| since := since; until := until; exclude := []; only := [];
     hide_unknown := false; merge := merge; count := count |}.

End Sample.

(* ================================================================= *)
(** ** Vocabulary of the further properties                            *)
(* ================================================================= *)

(** The time stamp the kernel log puts in front of an audit line. *)
Definition dmesg_stamp (a b : string) : string :=
  ("[" ++ a ++ "." ++ b ++ "] audit: ")%string.

(** [0-9a-fA-F] *)
Definition hex_digit (c : ascii) : bool :=
  (between 48 57 c || between 97 102 c || between 65 70 c)%bool.

Fixpoint hex_from (acc : Z) (s : string) : Z :=
  match s with
  | EmptyString => acc
  | String c s' =>
      hex_from (16 * acc + match digit_value c with
                           | Some d => d
                           | None => 0
                           end) s'
  end.

(** The number a string of hexadecimal digits denotes. *)
Definition hex_value (s : string) : Z := hex_from 0 s.

(** The character [c], [n] times. *)
Fixpoint repeat_char (c : ascii) (n : nat) : string :=
  match n with
  | O => EmptyString
  | S n' => String c (repeat_char c n')
  end.

(** A character allowed inside a double-quoted value. *)
Definition quoted_char (c : ascii) : bool :=
  (dot c && negb (Ascii.eqb "034" c))%bool.

(** The fields the AppArmor extractor drops from a denial. *)
Definition apparmor_volatile : list string :=
  ["time"; "pid"; "comm"; "fsuid"; "ouid"].

(** The sum of the counts of a table. *)
Definition total_count (t : table) : Z :=
  fold_right (fun entry acc => snd entry + acc) 0 t.

Section Passing.

Variable main_info_filters : value -> dict -> outcome dict.
Variable pretty_printers : value -> dict -> string -> printed string.
Variable registered : value -> bool.

(** The lines of a stream and, for each record it lets through, the
    key and the block of the record, when every extractor and renderer
    call on the way returns, the renderer printing nothing of its own. *)
Inductive passes (a : args) : list string -> list (dict * string) -> Prop :=
| passes_end : passes a [] []
| passes_skip line rest items msg :
    parse_message line = Ok msg ->
    should_process registered a msg = Ok false ->
    passes a rest items ->
    passes a (line :: rest) items
| passes_take line rest items msg ty info text :
    parse_message line = Ok (Some msg) ->
    should_process registered a (Some msg) = Ok true ->
    get "type" msg = Some ty ->
    main_info_filters ty msg = Ok info ->
    pretty_printers ty msg EmptyString = ([], Ok text) ->
    passes a rest items ->
    passes a (line :: rest) ((FrozenDict info, text) :: items).

End Passing.

(* ================================================================= *)
(** ** Facts about strings                                             *)
(* ================================================================= *)

Section StringFacts.

Local Open Scope string_scope.

Lemma append_nil_r (s : string) : s ++ EmptyString = s.
Proof. induction s; simpl; congruence. Qed.

Lemma append_assoc (a b c : string) : (a ++ b) ++ c = a ++ (b ++ c).
Proof. induction a; simpl; congruence. Qed.

Lemma length_append (a b : string) :
  String.length (a ++ b) = (String.length a + String.length b)%nat.
Proof. induction a; simpl; congruence. Qed.

Lemma append_eq_nil (a b : string) :
  a ++ b = EmptyString -> a = EmptyString /\ b = EmptyString.
Proof. destruct a; simpl; [auto | discriminate]. Qed.

Lemma all_chars_append (p : ascii -> bool) (a b : string) :
  all_chars p (a ++ b) = (all_chars p a && all_chars p b)%bool.
Proof.
  induction a as [|c a IH]; simpl; [reflexivity|].
  rewrite IH. apply andb_assoc.
Qed.

Lemma prefix_true_iff (p s : string) :
  String.prefix p s = true <-> exists rest, s = p ++ rest.
Proof.
  revert s. induction p as [|a p IH]; intros s.
  - destruct s; simpl; (split; [eauto | reflexivity]).
  - destruct s as [|b s]; simpl.
    + split; [discriminate | intros [rest H]; discriminate].
    + destruct (ascii_dec a b) as [->|Hab].
      * rewrite IH. split; intros [rest H]; exists rest; simpl in *; congruence.
      * split; [discriminate | intros [rest H]; simpl in H; congruence].
Qed.

Lemma startswith_false (s p : string) :
  (forall rest, s <> p ++ rest) -> startswith s p = false.
Proof.
  intros H. unfold startswith. destruct (String.prefix p s) eqn:E; [|reflexivity].
  apply prefix_true_iff in E as [rest E]. now apply H in E.
Qed.

Lemma strip_prefix_some_iff (p s rest : string) :
  strip_prefix p s = Some rest <-> s = p ++ rest.
Proof.
  revert s. induction p as [|a p IH]; intros s; simpl.
  - split; congruence.
  - destruct s as [|b s]; [split; discriminate|].
    destruct (Ascii.eqb_spec a b) as [->|Hab].
    + rewrite IH. split; congruence.
    + split; [discriminate | congruence].
Qed.

Lemma strip_prefix_append (p rest : string) :
  strip_prefix p (p ++ rest) = Some rest.
Proof. now apply strip_prefix_some_iff. Qed.

Lemma strip_prefix_none (p s : string) :
  startswith s p = false -> strip_prefix p s = None.
Proof.
  intros H. destruct (strip_prefix p s) as [rest|] eqn:E; [|reflexivity].
  apply strip_prefix_some_iff in E.
  assert (startswith s p = true) by (apply prefix_true_iff; eauto).
  congruence.
Qed.

Lemma startswith_append (s p rest : string) :
  s <> EmptyString -> String.length p = 1%nat ->
  startswith s p = false -> startswith (s ++ rest) p = false.
Proof.
  intros Hne Hp H. apply startswith_false. intros r Hr.
  destruct p as [|a [|? ?]]; try discriminate.
  destruct s as [|c s]; [congruence|]. simpl in Hr. injection Hr as -> _.
  assert (startswith (String a s) (String a EmptyString) = true)
    by (apply prefix_true_iff; now exists s).
  congruence.
Qed.

Lemma take_length_append (a b : string) :
  take (String.length a) (a ++ b) = a.
Proof. induction a; simpl; [now destruct b | congruence]. Qed.

Lemma consumed_append (a b : string) : consumed (a ++ b) b = a.
Proof.
  unfold consumed. rewrite length_append.
  replace (String.length a + String.length b - String.length b)%nat
    with (String.length a) by lia.
  apply take_length_append.
Qed.

Lemma contains_unfold (sub s : string) :
  contains sub s =
  if String.prefix sub s then true
  else match s with
       | EmptyString => false
       | String _ s' => contains sub s'
       end.
Proof. destruct s; reflexivity. Qed.

(** [sub in s] holds exactly when [s] is some text, [sub], some text. *)
Lemma contains_true_iff (sub s : string) :
  contains sub s = true <-> exists a b, s = a ++ sub ++ b.
Proof.
  induction s as [|c s IH]; rewrite contains_unfold.
  - destruct (String.prefix sub EmptyString) eqn:E.
    + apply prefix_true_iff in E as [rest E].
      split; [intros _; exists EmptyString, rest; exact E | reflexivity].
    + split; [discriminate|].
      intros (a & b & H). symmetry in H.
      apply append_eq_nil in H as [-> H]. simpl in H.
      assert (String.prefix sub EmptyString = true)
        by (apply prefix_true_iff; exists b; now rewrite H).
      congruence.
  - destruct (String.prefix sub (String c s)) eqn:E.
    + apply prefix_true_iff in E as [rest E].
      split; [intros _; exists EmptyString, rest; exact E | reflexivity].
    + rewrite IH. split.
      * intros (a & b & ->). now exists (String c a), b.
      * intros (a & b & H). destruct a as [|c' a]; simpl in H.
        -- assert (String.prefix sub (String c s) = true)
             by (apply prefix_true_iff; exists b; now rewrite H).
           congruence.
        -- injection H as _ ->. now exists a, b.
Qed.

Lemma lstrip_suffix (s : string) :
  exists a, s = a ++ lstrip s /\ Spec.blank a.
Proof.
  induction s as [|c s (a & IH & Ha)]; simpl.
  - now exists EmptyString.
  - destruct (isspace c) eqn:Hc.
    + exists (String c a). split; [simpl; now rewrite <- IH|].
      unfold Spec.blank. simpl. now rewrite Hc.
    + now exists EmptyString.
Qed.

Lemma rstrip_prefix (s : string) :
  exists b, s = rstrip s ++ b /\ Spec.blank b.
Proof.
  induction s as [|c s (b & IH & Hb)]; simpl.
  - now exists EmptyString.
  - destruct (rstrip s) eqn:E.
    + simpl in IH. subst b. destruct (isspace c) eqn:Hc.
      * exists (String c s). split; [reflexivity|].
        unfold Spec.blank. simpl. now rewrite Hc.
      * exists s. split; [reflexivity | assumption].
    + exists b. split; [simpl in *; now rewrite <- IH | assumption].
Qed.

(** Trimming keeps the part of the line between the outer blanks. *)
Lemma strip_middle (s : string) :
  exists a b, s = a ++ strip s ++ b /\ Spec.blank a /\ Spec.blank b.
Proof.
  unfold strip. destruct (lstrip_suffix s) as (a & Ha & Hba).
  destruct (rstrip_prefix (lstrip s)) as (b & Hb & Hbb).
  exists a, b. now rewrite <- Hb.
Qed.

Lemma contains_strip (sub s : string) :
  contains sub (strip s) = true -> contains sub s = true.
Proof.
  rewrite !contains_true_iff. intros (a & b & H).
  destruct (strip_middle s) as (a' & b' & Hs & _).
  exists (a' ++ a), (b ++ b'). rewrite Hs, H.
  now rewrite !append_assoc.
Qed.

Lemma lstrip_blank (s : string) :
  all_chars isspace s = true -> lstrip s = EmptyString.
Proof.
  induction s as [|c s IH]; simpl; [reflexivity|].
  intros H. apply andb_true_iff in H as [-> H]. auto.
Qed.

Lemma strip_blank (s : string) : Spec.blank s -> strip s = EmptyString.
Proof. intros H. unfold strip. now rewrite lstrip_blank. Qed.

End StringFacts.

(* ================================================================= *)
(** ** The matcher only finds what the pattern describes               *)
(* ================================================================= *)

Section MatcherSound.

Context {R : Type}.

Lemma plus_greedy_sound (p : ascii -> bool) (s : string)
      (k : string -> option R) (x : R) :
  plus_greedy p s k = Some x ->
  exists s1 s2, s = (s1 ++ s2)%string /\ Spec.run_of p s1 /\ k s2 = Some x.
Proof.
  induction s as [|c s IH]; simpl; [discriminate|].
  destruct (p c) eqn:Hc; [|discriminate].
  destruct (plus_greedy p s k) as [r|] eqn:E.
  - intros [= ->]. destruct (IH eq_refl) as (s1 & s2 & -> & [_ H1] & H2).
    exists (String c s1), s2. repeat split; simpl; auto.
    + discriminate.
    + now rewrite Hc.
  - intros H. exists (String c EmptyString), s. repeat split; simpl; auto.
    + discriminate.
    + now rewrite Hc.
Qed.

Lemma plus_lazy_sound (p : ascii -> bool) (s : string)
      (k : string -> option R) (x : R) :
  plus_lazy p s k = Some x ->
  exists s1 s2, s = (s1 ++ s2)%string /\ Spec.run_of p s1 /\ k s2 = Some x.
Proof.
  induction s as [|c s IH]; simpl; [discriminate|].
  destruct (p c) eqn:Hc; [|discriminate].
  destruct (k s) as [r|] eqn:E.
  - intros [= ->]. exists (String c EmptyString), s.
    repeat split; simpl; auto; [discriminate | now rewrite Hc].
  - intros H. destruct (IH H) as (s1 & s2 & -> & [_ H1] & H2).
    exists (String c s1), s2. repeat split; simpl; auto.
    + discriminate.
    + now rewrite Hc.
Qed.

Lemma run_sound (r : regex) :
  forall (s : string) (c : captures)
         (k : string -> captures -> option R) (x : R),
    run r s c k = Some x ->
    exists s1 s2 c',
      s = (s1 ++ s2)%string /\ matches r s1 c c' /\ k s2 c' = Some x.
Proof.
  induction r as [l|p|p|r IH|r1 IH1 r2 IH2|r1 IH1 r2 IH2|n r IH];
    intros s c k x; simpl.
  - destruct (strip_prefix l s) as [rest|] eqn:E; [|discriminate].
    apply strip_prefix_some_iff in E. intros H.
    exists l, rest, c. split; [assumption|]. split; [constructor | assumption].
  - intros H. apply plus_greedy_sound in H as (s1 & s2 & -> & Hr & Hk).
    exists s1, s2, c. split; [reflexivity|]. split; [now constructor | assumption].
  - intros H. apply plus_lazy_sound in H as (s1 & s2 & -> & Hr & Hk).
    exists s1, s2, c. split; [reflexivity|]. split; [now constructor | assumption].
  - destruct (run r s c k) as [y|] eqn:E.
    + intros [= ->]. destruct (IH _ _ _ _ E) as (s1 & s2 & c' & -> & Hm & Hk).
      exists s1, s2, c'. split; [reflexivity|].
      split; [now apply matches_opt_some | assumption].
    + intros H. exists EmptyString, s, c. split; [reflexivity|].
      split; [apply matches_opt_none | assumption].
  - intros H. destruct (IH1 _ _ _ _ H) as (s1 & s2 & c1 & -> & Hm1 & H').
    destruct (IH2 _ _ _ _ H') as (s3 & s4 & c2 & -> & Hm2 & Hk).
    exists (s1 ++ s3)%string, s4, c2. split; [now rewrite append_assoc|].
    split; [now apply matches_seq with c1 | assumption].
  - destruct (run r1 s c k) as [y|] eqn:E.
    + intros [= ->]. destruct (IH1 _ _ _ _ E) as (s1 & s2 & c' & -> & Hm & Hk).
      exists s1, s2, c'. split; [reflexivity|].
      split; [now apply matches_alt_l | assumption].
    + intros H. destruct (IH2 _ _ _ _ H) as (s1 & s2 & c' & -> & Hm & Hk).
      exists s1, s2, c'. split; [reflexivity|].
      split; [now apply matches_alt_r | assumption].
  - intros H. destruct (IH _ _ _ _ H) as (s1 & s2 & c' & -> & Hm & Hk).
    rewrite consumed_append in Hk.
    exists s1, s2, ((n, s1) :: c'). split; [reflexivity|].
    split; [now constructor | assumption].
Qed.

End MatcherSound.

Lemma fullmatch_sound (r : regex) (s : string) (m : captures) :
  fullmatch r s = Some m -> matches r s [] m.
Proof.
  unfold fullmatch. intros H.
  apply run_sound in H as (s1 & s2 & c' & -> & Hm & Hk).
  destruct s2; [|discriminate]. injection Hk as ->.
  now rewrite append_nil_r.
Qed.

Lemma match_sound (r : regex) (s rest : string) (m : captures) :
  match_ r s = Some (rest, m) ->
  exists s1, s = (s1 ++ rest)%string /\ matches r s1 [] m.
Proof.
  unfold match_. intros H.
  apply run_sound in H as (s1 & s2 & c' & -> & Hm & Hk).
  injection Hk as -> ->. now exists s1.
Qed.

(* ================================================================= *)
(** ** The tokenizer: what a matched line looks like                   *)
(* ================================================================= *)

Lemma audit_line_sound (t : string) (m : captures) :
  fullmatch audit_line t = Some m ->
  exists tag seconds body,
    Spec.audit_shape t tag seconds body
    /\ m = [(3%nat, body); (2%nat, seconds); (1%nat, ("type=" ++ tag)%string)].
Proof.
  intros H. apply fullmatch_sound in H. unfold audit_line in H.
  invert_matches;
    match goal with
    | |- exists _ _ _,
        Spec.audit_shape
          ((_ ++ ?tag) ++ _ ++ ?o ++ _ ++ ?secs ++ _ ++ ?sub ++ _ ++ ?sq
           ++ _ ++ ?body)%string _ _ _ /\ _ =>
        exists tag, secs, body; split; [exists o, sub, sq | reflexivity]
    end.
  all: split; [now rewrite append_assoc|].
  all: repeat match goal with |- _ /\ _ => split end; auto.
Qed.

Lemma dmesg_prefix_sound (t rest : string) (m : captures) :
  match_ dmesg_prefix t = Some (rest, m) -> Spec.dmesg_stamped t rest.
Proof.
  intros H. apply match_sound in H as (s1 & -> & H).
  unfold dmesg_prefix in H. invert_matches.
  match goal with
  | |- Spec.dmesg_stamped ((_ ++ ?a ++ _ ++ ?b ++ _) ++ _)%string _ =>
      exists a, b
  end.
  split; [|split; assumption].
  now repeat (progress (rewrite ?append_assoc; simpl)).
Qed.

(** [normalize] never raises; it gives nothing, or the rewriting of a
    line that has the shape. *)
Lemma normalize_cases (line : string) :
  normalize line = Ok None
  \/ exists tag seconds body,
       Spec.line_shape line tag seconds body
       /\ ~ Spec.blank line
       /\ contains "audit" line = true
       /\ normalize line = Ok (Some (rewritten tag seconds body)).
Proof.
  unfold normalize.
  destruct (String.length (strip line) =? 0)%nat eqn:Hlen; [now left|].
  destruct (contains "audit" (strip line)) eqn:Haudit; [|now left].
  simpl.
  set (t := if startswith (strip line) "[" then
              sub_anchored dmesg_prefix (strip line) else strip line).
  destruct (fullmatch audit_line t) as [m|] eqn:Hm; [|now left].
  right. apply audit_line_sound in Hm as (tag & secs & body & Hshape & ->).
  exists tag, secs, body. simpl.
  split; [|split; [|split]].
  - destruct (strip_middle line) as (a & b & Hline & Ha & Hb).
    exists a, (strip line), b. repeat split; try assumption.
    subst t. destruct (startswith (strip line) "["); [|now left].
    unfold sub_anchored in Hshape.
    destruct (match_ dmesg_prefix (strip line)) as [[rest c]|] eqn:E;
      [|now left].
    right. exists rest. split; [|assumption].
    now apply dmesg_prefix_sound with c.
  - intros Hb. apply strip_blank in Hb. rewrite Hb in Hlen. discriminate.
  - now apply contains_strip.
  - unfold rewritten. now repeat (progress (rewrite ?append_assoc; simpl)).
Qed.

Lemma normalize_total (line : string) : exists o, normalize line = Ok o.
Proof.
  destruct (normalize_cases line) as [H|(? & ? & ? & _ & _ & _ & H)];
    rewrite H; eauto.
Qed.

(* ================================================================= *)
(** ** Character classes                                               *)
(* ================================================================= *)

Lemma implb_true (a b : bool) : implb a b = true -> a = true -> b = true.
Proof. now destruct a, b. Qed.

Lemma all_chars_impl (p q : ascii -> bool) (s : string) :
  (forall c, implb (p c) (q c) = true) ->
  all_chars p s = true -> all_chars q s = true.
Proof.
  intros Hpq. induction s as [|c s IH]; simpl; [reflexivity|].
  intros H. apply andb_true_iff in H as [Hc Hs].
  rewrite (implb_true _ _ (Hpq c) Hc). auto.
Qed.

Lemma tag_char_not_space c : implb (tag_char c) (not_space c) = true.
Proof. by_cases_on_char c. Qed.

Lemma digit_not_space c : implb (digit c) (not_space c) = true.
Proof. by_cases_on_char c. Qed.

Lemma tag_char_not_quote c :
  implb (tag_char c) (negb (Ascii.eqb "034" c)) = true.
Proof. by_cases_on_char c. Qed.

Lemma digit_not_quote c :
  implb (digit c) (negb (Ascii.eqb "034" c)) = true.
Proof. by_cases_on_char c. Qed.

Lemma tag_char_not_x c :
  implb (tag_char c) (negb (Ascii.eqb c "x")) = true.
Proof. by_cases_on_char c. Qed.

Lemma ascii_digit_isdigit c :
  implb (is_ascii_digit c) (isdigit_char c) = true.
Proof. by_cases_on_char c. Qed.

Lemma tag_char_isdigit c :
  implb (tag_char c && isdigit_char c) (is_ascii_digit c) = true.
Proof. by_cases_on_char c. Qed.

Lemma isdigit_char_not_x c :
  implb (isdigit_char c) (negb (Ascii.eqb c "x")) = true.
Proof. by_cases_on_char c. Qed.

(** An ASCII digit starts no blank, sign or underscore and has its
    decimal value. *)
Lemma ascii_digit_facts c :
  is_ascii_digit c = true ->
  int_space c = false /\ Ascii.eqb c "+" = false /\ Ascii.eqb c "-" = false
  /\ Ascii.eqb c underscore = false
  /\ digit_value c = Some (Z.of_N (code c) - 48)
  /\ (Z.of_N (code c) - 48 <? 10) = true.
Proof.
  destruct c as [[] [] [] [] [] [] [] []]; vm_compute; intros H;
    (discriminate H || (repeat split; reflexivity)).
Qed.

(** A superscript digit is none of the characters an integer literal
    may hold. *)
Lemma superscript_facts c :
  isdigit_char c = true -> is_ascii_digit c = false ->
  int_space c = false /\ Ascii.eqb c "+" = false /\ Ascii.eqb c "-" = false
  /\ Ascii.eqb c underscore = false /\ digit_value c = None.
Proof.
  destruct c as [[] [] [] [] [] [] [] []]; vm_compute; intros H H';
    (discriminate H || discriminate H' || (repeat split; reflexivity)).
Qed.

(* ================================================================= *)
(** ** [int] on the strings the tokenizer hands it                     *)
(* ================================================================= *)

Lemma scan_decimal_tail (s : string) :
  forall acc n,
    all_chars is_ascii_digit s = true ->
    scan_digits 10 acc false true n s
    = Some (Spec.decimal_from acc s, (n + String.length s)%nat, EmptyString).
Proof.
  induction s as [|c s IH]; intros acc n H; simpl.
  - now rewrite Nat.add_0_r.
  - simpl in H. apply andb_true_iff in H as [Hc Hs].
    destruct (ascii_digit_facts c Hc) as (_ & _ & _ & _ & -> & ->).
    rewrite IH by assumption.
    now rewrite (Z.mul_comm acc 10), Nat.add_succ_r.
Qed.

(** [int] on a string of decimal digits: its value, unless the string
    is longer than the limit. *)
Lemma int_of_str_decimal (s : string) :
  Spec.is_decimal s = true ->
  int_of_str 10 s
  = if (String.length s <=? max_str_digits)%nat
    then Ok (Spec.decimal_value s) else Raise ValueError.
Proof.
  destruct s as [|c s]; [discriminate|]. unfold Spec.is_decimal.
  intros H. pose proof H as H'. simpl in H'.
  apply andb_true_iff in H' as [Hc Hs].
  destruct (ascii_digit_facts c Hc) as (Hsp & Hplus & Hminus & Hus & Hd & Hlt).
  unfold int_of_str. simpl drop_while. rewrite Hsp.
  assert (Hsign : strip_sign (String c s) = (1, String c s)).
  { unfold strip_sign.
    destruct (Ascii.eqb_spec c "+"); [discriminate|].
    destruct (Ascii.eqb_spec c "-"); [discriminate|].
    destruct c as [[] [] [] [] [] [] [] []]; try reflexivity; congruence. }
  rewrite Hsign. simpl (10 =? 16).  cbv iota.
  assert (Hstart : startswith (String c s) "_" = false).
  { apply startswith_false. intros rest [= -> _]. discriminate Hus. }
  rewrite Hstart. cbn [scan_digits]. rewrite Hd, Hlt.
  rewrite scan_decimal_tail by assumption.
  change (binary_base 10) with false. cbn [negb andb String.length Nat.add].
  rewrite Nat.ltb_antisym.
  destruct (S (String.length s) <=? max_str_digits)%nat; [|reflexivity].
  cbn [negb drop_while].
  unfold Spec.decimal_value. cbn [Spec.decimal_from].
  now destruct (Spec.decimal_from _ s).
Qed.

(** Reading digits stops in front of a superscript. *)
Lemma scan_superscript (s : string) :
  forall acc seen n,
    all_chars isdigit_char s = true ->
    all_chars is_ascii_digit s = false ->
    match scan_digits 10 acc false seen n s with
    | None => True
    | Some (_, rest) => drop_while int_space rest <> EmptyString
    end.
Proof.
  induction s as [|c s IH]; intros acc seen n H H'; simpl in *; [discriminate|].
  apply andb_true_iff in H as [Hc Hs].
  destruct (is_ascii_digit c) eqn:Hd.
  - destruct (ascii_digit_facts c Hd) as (_ & _ & _ & _ & -> & ->).
    now apply IH.
  - destruct (superscript_facts c Hc Hd) as (Hsp & _ & _ & -> & ->).
    destruct seen; simpl; [|exact I].
    rewrite Hsp. discriminate.
Qed.

Lemma int_of_str_superscript (s : string) :
  isdigit s = true -> Spec.is_decimal s = false ->
  int_of_str 10 s = Raise ValueError.
Proof.
  destruct s as [|c s]; [discriminate|].
  unfold isdigit, Spec.is_decimal. intros H H'.
  assert (Hc : isdigit_char c = true)
    by (simpl in H; now apply andb_true_iff in H as [? _]).
  assert (Hfacts : int_space c = false /\ Ascii.eqb c "+" = false
                   /\ Ascii.eqb c "-" = false
                   /\ Ascii.eqb c underscore = false).
  { destruct (is_ascii_digit c) eqn:Hd.
    - destruct (ascii_digit_facts c Hd) as (? & ? & ? & ? & _); auto.
    - destruct (superscript_facts c Hc Hd) as (? & ? & ? & ? & _); auto. }
  destruct Hfacts as (Hsp & Hplus & Hminus & Hus).
  unfold int_of_str. simpl drop_while. rewrite Hsp.
  assert (Hsign : strip_sign (String c s) = (1, String c s)).
  { unfold strip_sign.
    destruct (Ascii.eqb_spec c "+"); [discriminate|].
    destruct (Ascii.eqb_spec c "-"); [discriminate|].
    destruct c as [[] [] [] [] [] [] [] []]; try reflexivity; congruence. }
  rewrite Hsign. simpl (10 =? 16). cbv iota.
  assert (Hstart : startswith (String c s) "_" = false).
  { apply startswith_false. intros rest [= -> _]. discriminate Hus. }
  rewrite Hstart.
  pose proof (scan_superscript (String c s) 0 false 0%nat H H') as Hscan.
  destruct (scan_digits 10 0 false false 0 (String c s)) as [[[n digits] rest]|];
    [|reflexivity].
  destruct (_ && _)%bool; [reflexivity|].
  destruct (drop_while int_space rest); [congruence | reflexivity].
Qed.

Lemma int_of_str_raises (base : Z) (s : string) (e : exn) :
  int_of_str base s = Raise e -> e = ValueError.
Proof.
  unfold int_of_str.
  destruct (strip_sign (drop_while int_space s)) as [sign s1].
  destruct (startswith _ "_"); [congruence|].
  destruct (scan_digits _ _ _ _ _ _) as [[[n digits] rest]|]; [|congruence].
  destruct (_ && _)%bool; [congruence|].
  destruct (drop_while int_space rest); [discriminate | congruence].
Qed.

Lemma decimal_isdigit (s : string) :
  Spec.is_decimal s = true -> isdigit s = true.
Proof.
  destruct s as [|c s]; [discriminate|].
  unfold Spec.is_decimal, isdigit.
  apply all_chars_impl, ascii_digit_isdigit.
Qed.

Lemma isdigit_not_hex (s : string) :
  isdigit s = true -> startswith s "0x" = false.
Proof.
  intros H. apply startswith_false. intros rest ->.
  unfold isdigit in H. simpl in H. discriminate H.
Qed.

(* ================================================================= *)
(** ** The coercion loop                                               *)
(* ================================================================= *)

(** One turn of the loop never raises: it stores the integer the value
    coerces to, or leaves the dict alone. *)
Lemma coerce_field_str (k s : string) (result : dict) :
  coerce_field result (k, VStr s) =
  Ok (match Spec.coerced s with
      | VInt n => set k (VInt n) result
      | VStr _ => result
      end).
Proof.
  unfold coerce_field, coerce_body, Spec.coerced. simpl.
  destruct (isdigit s) eqn:Hdig.
  - rewrite (isdigit_not_hex s Hdig).
    destruct (Spec.is_decimal s) eqn:Hdec.
    + rewrite (int_of_str_decimal s Hdec).
      now destruct (String.length s <=? max_str_digits)%nat.
    + now rewrite (int_of_str_superscript s Hdig Hdec).
  - destruct (Spec.is_decimal s) eqn:Hdec.
    + apply decimal_isdigit in Hdec. congruence.
    + destruct (startswith s "0x"); [|reflexivity].
      destruct (int_of_str 16 s) as [n|e] eqn:E; [reflexivity|].
      now rewrite (int_of_str_raises _ _ _ E).
Qed.

(* ================================================================= *)
(** ** Facts about dicts                                               *)
(* ================================================================= *)

Section DictFacts.

Lemma get_set_same (k : string) (v : value) (d : dict) :
  get k (set k v d) = Some v.
Proof.
  induction d as [|[k' v'] d IH]; simpl.
  - now rewrite String.eqb_refl.
  - destruct (String.eqb k' k) eqn:E; simpl; now rewrite E.
Qed.

Lemma get_set_other (k k' : string) (v : value) (d : dict) :
  k <> k' -> get k (set k' v d) = get k d.
Proof.
  intros Hk. induction d as [|[k0 v0] d IH]; simpl.
  - destruct (String.eqb_spec k' k); congruence.
  - destruct (String.eqb_spec k0 k'); simpl.
    + subst. destruct (String.eqb_spec k' k); congruence.
    + now rewrite IH.
Qed.

Lemma get_none_iff (k : string) (d : dict) :
  get k d = None <-> ~ In k (keys d).
Proof.
  induction d as [|[k' v'] d IH]; simpl; [tauto|].
  destruct (String.eqb_spec k' k).
  - split; [discriminate | intros H; exfalso; auto].
  - rewrite IH. tauto.
Qed.

Lemma keys_set (k : string) (v : value) (d : dict) :
  keys (set k v d) = if mem k d then keys d else keys d ++ [k].
Proof.
  unfold mem. induction d as [|[k' v'] d IH]; simpl; [reflexivity|].
  destruct (String.eqb k' k); simpl; [reflexivity|].
  rewrite IH. now destruct (get k d).
Qed.

Lemma NoDup_keys_set (k : string) (v : value) (d : dict) :
  NoDup (keys d) -> NoDup (keys (set k v d)).
Proof.
  intros H. rewrite keys_set. unfold mem.
  destruct (get k d) eqn:E; [assumption|].
  apply get_none_iff in E.
  apply NoDup_app; [assumption | repeat constructor; intros [] | ].
  intros x Hx [<-|[]]. contradiction.
Qed.

Lemma set_middle (k : string) (v w : value) (a b : dict) :
  ~ In k (keys a) -> set k v (a ++ (k, w) :: b) = a ++ (k, v) :: b.
Proof.
  induction a as [|[k' v'] a IH]; simpl; intros H.
  - now rewrite String.eqb_refl.
  - destruct (String.eqb_spec k' k); [exfalso; auto|].
    rewrite IH; auto.
Qed.

Lemma all_str_set (k s : string) (d : dict) :
  all_str d -> all_str (set k (VStr s) d).
Proof.
  unfold all_str. induction d as [|[k' v'] d IH]; simpl; intros H.
  - constructor; [now exists s | constructor].
  - inversion H; subst. destruct (String.eqb k' k).
    + constructor; [now exists s | assumption].
    + constructor; auto.
Qed.

End DictFacts.

(** The fields as read, before the coercion loop: strings under
    distinct keys. *)
Lemma store_match_keeps (ms : list captures) :
  forall d, NoDup (keys d) /\ all_str d ->
            NoDup (keys (fold_left store_match ms d))
            /\ all_str (fold_left store_match ms d).
Proof.
  induction ms as [|m ms IH]; intros d [Hnd Hstr]; simpl; [auto|].
  apply IH. unfold store_match.
  destruct (group 1 m) as [key|]; [|auto].
  destruct (group 2 m), (group 3 m);
    repeat first [apply NoDup_keys_set | apply all_str_set | split]; auto.
Qed.

Lemma fields_well_formed (t : string) :
  NoDup (keys (fields t)) /\ all_str (fields t).
Proof.
  apply store_match_keeps. split; constructor.
Qed.

Lemma coerced_keeps_string (s s' : string) :
  Spec.coerced s = VStr s' -> s' = s.
Proof.
  unfold Spec.coerced.
  destruct (Spec.is_decimal s).
  { destruct (String.length s <=? max_str_digits)%nat; congruence. }
  destruct (startswith s "0x"); [|congruence].
  destruct (int_of_str 16 s); congruence.
Qed.

Lemma keys_map_coerce (d : dict) : keys (map coerce_kv d) = keys d.
Proof. unfold keys. rewrite map_map. reflexivity. Qed.

Lemma coerce_items_spec (items : dict) :
  forall done,
    NoDup (keys (done ++ items)) -> all_str items ->
    coerce_items items (map coerce_kv done ++ items)
    = Ok (map coerce_kv (done ++ items)).
Proof.
  induction items as [|[k v] items IH]; intros done Hnd Hstr; simpl.
  - now rewrite !app_nil_r.
  - inversion Hstr as [|? ? [s Hs] Hrest]; subst. simpl in Hs. subst v.
    rewrite coerce_field_str. simpl.
    assert (Hk : ~ In k (keys (map coerce_kv done))).
    { rewrite keys_map_coerce. unfold keys in *. rewrite map_app in Hnd.
      simpl in Hnd. apply NoDup_remove_2 in Hnd.
      intros Hin. apply Hnd. apply in_or_app. now left. }
    replace (done ++ (k, VStr s) :: items)
      with ((done ++ [(k, VStr s)]) ++ items) in *
      by (now rewrite <- app_assoc).
    rewrite <- (IH (done ++ [(k, VStr s)]) Hnd Hrest).
    f_equal. rewrite map_app, <- app_assoc. simpl.
    change (coerce_kv (k, VStr s)) with (k, Spec.coerced s).
    destruct (Spec.coerced s) as [s'|n] eqn:E.
    + now rewrite (coerced_keeps_string _ _ E).
    + now rewrite set_middle.
Qed.

(** The tokenizer never raises, and the record it returns holds every
    field as read, coerced. *)
Lemma parse_message_spec (line : string) :
  (normalize line = Ok None /\ parse_message line = Ok None)
  \/ exists tag seconds body,
       Spec.line_shape line tag seconds body
       /\ normalize line = Ok (Some (rewritten tag seconds body))
       /\ parse_message line
          = Ok (Some (map coerce_kv (fields (rewritten tag seconds body)))).
Proof.
  unfold parse_message.
  destruct (normalize_cases line)
    as [H|(tag & secs & body & Hshape & _ & _ & H)]; rewrite H; simpl.
  - now left.
  - right. exists tag, secs, body. split; [assumption|]. split; [reflexivity|].
    destruct (fields_well_formed (rewritten tag secs body)) as [Hnd Hstr].
    pose proof (coerce_items_spec _ [] Hnd Hstr) as Hc. simpl in Hc.
    now rewrite Hc.
Qed.

(* ================================================================= *)
(** ** Scanning the rewritten line                                     *)
(* ================================================================= *)

Section Greedy.

Context {R : Type}.

Lemma plus_greedy_stops (p : ascii -> bool) (rest : string)
      (k : string -> option R) :
  stops p rest -> plus_greedy p rest k = None.
Proof. destruct rest; simpl; [reflexivity | now intros ->]. Qed.

(** A greedy run followed by a character outside the class: the
    longest run is tried first, and taken when the rest then matches. *)
Lemma plus_greedy_max (p : ascii -> bool) (s rest : string)
      (k : string -> option R) (x : R) :
  Spec.run_of p s -> stops p rest -> k rest = Some x ->
  plus_greedy p (s ++ rest)%string k = Some x.
Proof.
  intros [Hne Hall] Hstop Hk. induction s as [|c s IH]; [congruence|].
  simpl in *. apply andb_true_iff in Hall as [-> Hall].
  destruct s as [|c' s].
  - simpl. now rewrite plus_greedy_stops.
  - rewrite IH; [reflexivity | discriminate | assumption].
Qed.

End Greedy.

Lemma consumed_append_assoc (a b c : string) :
  consumed (a ++ b ++ c)%string c = (a ++ b)%string.
Proof. rewrite <- append_assoc. apply consumed_append. Qed.

(** [key=value] with an unquoted value, followed by a space or the end
    of the text. *)
Lemma match_field_unquoted (key val rest : string) :
  Spec.run_of key_char key -> Spec.run_of not_space val ->
  startswith val quote = false -> stops not_space rest ->
  match_ field (key ++ "=" ++ val ++ rest)%string
  = Some (rest, [(3%nat, val); (1%nat, key)]).
Proof.
  intros Hkey Hval Hq Hstop. unfold match_, field. cbn [run].
  rewrite (plus_greedy_max key_char key ("=" ++ val ++ rest)%string _
             (rest, [(3%nat, val); (1%nat, key)]) Hkey eq_refl);
    [reflexivity|].
  rewrite strip_prefix_append.
  rewrite strip_prefix_none
    by (apply startswith_append; [apply Hval | reflexivity | assumption]).
  rewrite (plus_greedy_max not_space val rest _
             (rest, [(3%nat, val); (1%nat, key)]) Hval Hstop);
    [reflexivity|].
  now rewrite !consumed_append.
Qed.

Lemma finditer_skip (r : regex) (u s : string) :
  finditer_from r (String.length u) (u ++ s)%string = finditer_from r 0 s.
Proof.
  induction u as [|c u IH]; simpl; [|assumption].
  destruct s; reflexivity.
Qed.

Lemma finditer_match (r : regex) (c : ascii) (u rest : string) (m : captures) :
  match_ r (String c u ++ rest)%string = Some (rest, m) ->
  finditer r (String c u ++ rest)%string = m :: finditer r rest.
Proof.
  intros H. unfold finditer.
  change (String c u ++ rest)%string with (String c (u ++ rest)%string) in *.
  cbn [finditer_from]. rewrite H. f_equal.
  replace (String.length (String c (u ++ rest)) - String.length rest - 1)%nat
    with (String.length u)
    by (cbn [String.length]; rewrite length_append; lia).
  apply finditer_skip.
Qed.

Lemma finditer_no_match (r : regex) (c : ascii) (s : string) :
  match_ r (String c s) = None -> finditer r (String c s) = finditer r s.
Proof. intros H. unfold finditer. simpl. now rewrite H. Qed.

Lemma run_of_impl (p q : ascii -> bool) (s : string) :
  (forall c, implb (p c) (q c) = true) -> Spec.run_of p s -> Spec.run_of q s.
Proof. intros Hpq [Hne Hall]. split; [assumption|]. now apply all_chars_impl with p. Qed.

Lemma run_not_quoted (p : ascii -> bool) (s : string) :
  (forall c, implb (p c) (negb (Ascii.eqb "034" c)) = true) ->
  Spec.run_of p s -> startswith s quote = false.
Proof.
  intros Hp [Hne Hall]. apply startswith_false. intros rest ->.
  unfold quote in Hall. cbn [append all_chars] in Hall.
  apply andb_true_iff in Hall as [Hc _].
  pose proof (Hp "034"%char) as H. rewrite Hc in H. discriminate H.
Qed.

(** The scanner reads [type] and [time] first, then the fields of the
    body. *)
Lemma finditer_rewritten (tag seconds body : string) :
  Spec.run_of tag_char tag -> Spec.run_of digit seconds ->
  finditer field (rewritten tag seconds body)
  = [(3%nat, tag); (1%nat, "type")]
      :: [(3%nat, seconds); (1%nat, "time")]
      :: finditer field body.
Proof.
  intros Htag Hsecs.
  set (after_time := (" " ++ body)%string).
  set (after_type := (" time=" ++ seconds ++ after_time)%string).
  change (rewritten tag seconds body)
    with (String "t" ("ype=" ++ tag) ++ after_type)%string.
  rewrite (finditer_match field "t" ("ype=" ++ tag) after_type
             [(3%nat, tag); (1%nat, "type")]).
  2:{ apply (match_field_unquoted "type" tag after_type).
      - split; [discriminate | reflexivity].
      - now apply run_of_impl with tag_char; [apply tag_char_not_space|].
      - now apply run_not_quoted with tag_char; [apply tag_char_not_quote|].
      - reflexivity. }
  f_equal.
  change after_type with (String " " ("time=" ++ seconds ++ after_time)).
  rewrite finditer_no_match by reflexivity.
  change ("time=" ++ seconds ++ after_time)%string
    with (String "t" ("ime=" ++ seconds) ++ after_time)%string.
  rewrite (finditer_match field "t" ("ime=" ++ seconds) after_time
             [(3%nat, seconds); (1%nat, "time")]).
  2:{ apply (match_field_unquoted "time" seconds after_time).
      - split; [discriminate | reflexivity].
      - now apply run_of_impl with digit; [apply digit_not_space|].
      - now apply run_not_quoted with digit; [apply digit_not_quote|].
      - reflexivity. }
  reflexivity.
Qed.

Lemma get_store_match (k : string) (m : captures) (d : dict) :
  get k (store_match d m) =
  match stored m k with
  | Some v => Some v
  | None => get k d
  end.
Proof.
  unfold store_match, stored.
  destruct (group 1 m) as [key|]; [|reflexivity].
  destruct (String.eqb_spec key k) as [->|Hk].
  - destruct (group 2 m), (group 3 m);
      rewrite ?get_set_same; reflexivity.
  - destruct (group 2 m), (group 3 m);
      rewrite ?get_set_other by congruence; reflexivity.
Qed.

(** Later fields win: a key the scanned fields define has their value,
    any other key keeps the value it had. *)
Lemma get_fold_store_match (k : string) (ms : list captures) (d : dict) :
  get k (fold_left store_match ms d) =
  match get k (fold_left store_match ms []) with
  | Some v => Some v
  | None => get k d
  end.
Proof.
  induction ms as [|m ms IH] using rev_ind; [reflexivity|].
  rewrite !fold_left_app. simpl. rewrite !get_store_match.
  destruct (stored m k); [reflexivity | exact IH].
Qed.

Lemma fields_rewritten (tag seconds body : string) :
  Spec.run_of tag_char tag -> Spec.run_of digit seconds ->
  fields (rewritten tag seconds body)
  = fold_left store_match (finditer field body)
              [("type", VStr tag); ("time", VStr seconds)].
Proof.
  intros Htag Hsecs. unfold fields.
  now rewrite finditer_rewritten.
Qed.

Lemma get_fields_rewritten (k tag seconds body : string) :
  Spec.run_of tag_char tag -> Spec.run_of digit seconds ->
  get k (fields (rewritten tag seconds body)) =
  match get k (fields body) with
  | Some v => Some v
  | None => get k [("type", VStr tag); ("time", VStr seconds)]
  end.
Proof.
  intros Htag Hsecs. rewrite fields_rewritten by assumption.
  apply get_fold_store_match.
Qed.

Lemma get_map_coerce (k : string) (d : dict) :
  get k (map coerce_kv d) = option_map Spec.coerced_value (get k d).
Proof.
  induction d as [|[k' v'] d IH]; simpl; [reflexivity|].
  now destruct (String.eqb k' k).
Qed.

Lemma line_shape_runs (line tag seconds body : string) :
  Spec.line_shape line tag seconds body ->
  Spec.run_of tag_char tag /\ Spec.run_of digit seconds.
Proof.
  intros (a & t & b & _ & _ & _ & [H|(rest & _ & H)]);
    destruct H as (? & ? & ? & _ & ? & _ & ? & _); auto.
Qed.

(** A tag never reads as a hexadecimal literal: it holds no [x]. *)
Lemma coerced_tag (tag : string) :
  Spec.run_of tag_char tag ->
  Spec.coerced tag =
  if (Spec.is_decimal tag && (String.length tag <=? max_str_digits)%nat)%bool
  then VInt (Spec.decimal_value tag) else VStr tag.
Proof.
  intros [_ Hall]. unfold Spec.coerced.
  destruct (Spec.is_decimal tag); [reflexivity|].
  rewrite startswith_false; [reflexivity|].
  intros rest ->. cbn [append all_chars] in Hall.
  apply andb_true_iff in Hall as [_ Hall].
  apply andb_true_iff in Hall as [Hx _]. discriminate Hx.
Qed.

Lemma coerced_seconds (seconds : string) :
  Spec.run_of digit seconds ->
  Spec.coerced seconds =
  if (String.length seconds <=? max_str_digits)%nat
  then VInt (Spec.decimal_value seconds) else VStr seconds.
Proof.
  intros [Hne Hall]. unfold Spec.coerced.
  replace (Spec.is_decimal seconds) with true; [reflexivity|].
  destruct seconds; [congruence | symmetry; exact Hall].
Qed.

(** The record of a line, with its reserved fields: both are present;
    each holds what the audit stamp gave unless the body has a field of
    the same name. *)
Lemma reserved_fields (line : string) (record : dict) :
  parse_message line = Ok (Some record) ->
  exists tag seconds body,
    Spec.line_shape line tag seconds body
    /\ record = map coerce_kv (fields (rewritten tag seconds body))
    /\ get "type" record
       = match get "type" (fields body) with
         | Some v => Some (Spec.coerced_value v)
         | None => Some (Spec.coerced tag)
         end
    /\ get "time" record
       = match get "time" (fields body) with
         | Some v => Some (Spec.coerced_value v)
         | None => Some (Spec.coerced seconds)
         end.
Proof.
  intros H.
  destruct (parse_message_spec line)
    as [[_ H']|(tag & secs & body & Hshape & _ & H')]; [congruence|].
  rewrite H' in H. injection H as <-.
  exists tag, secs, body. split; [assumption|]. split; [reflexivity|].
  destruct (line_shape_runs _ _ _ _ Hshape) as [Htag Hsecs].
  rewrite !get_map_coerce, !get_fields_rewritten by assumption.
  split.
  - now destruct (get "type" (fields body)).
  - now destruct (get "time" (fields body)).
Qed.

(* ================================================================= *)
(** ** The filter                                                      *)
(* ================================================================= *)

Section FilterFacts.

Variable registered : value -> bool.

Lemma should_process_outside (a : args) (msg : dict) (t : Z) :
  get "time" msg = Some (VInt t) ->
  t < since a \/ until a < t ->
  should_process registered a (Some msg) = Ok false.
Proof.
  intros Ht Hout. unfold should_process, getitem. rewrite Ht. simpl.
  destruct (t <? since a) eqn:E1; [reflexivity|]. simpl.
  destruct (t >? until a) eqn:E2; [reflexivity|].
  apply Z.ltb_ge in E1. rewrite Z.gtb_ltb in E2. apply Z.ltb_ge in E2. lia.
Qed.

(** With an empty window no record is let through, whatever it holds:
    the call answers [False] or raises. *)
Lemma should_process_empty_window (a : args) (msg : option dict) :
  until a < since a -> should_process registered a msg <> Ok true.
Proof.
  intros Hw. destruct msg as [msg|]; [|discriminate].
  unfold should_process, getitem.
  destruct (get "time" msg) as [[s|t]|]; simpl; try discriminate.
  destruct (t <? since a) eqn:E1; [discriminate|]. simpl.
  destruct (t >? until a) eqn:E2; [discriminate|].
  apply Z.ltb_ge in E1. rewrite Z.gtb_ltb in E2. apply Z.ltb_ge in E2. lia.
Qed.

End FilterFacts.

Section LoopFacts.

Variable main_info_filters : value -> dict -> outcome dict.
Variable pretty_printers : value -> dict -> string -> printed string.
Variable registered : value -> bool.

Lemma parse_message_total (line : string) :
  exists o, parse_message line = Ok o.
Proof.
  destruct (parse_message_spec line) as [[_ H]|(? & ? & ? & _ & _ & H)];
    rewrite H; eauto.
Qed.

(** With an empty window the loop prints nothing and keeps no entry. *)
Lemma read_loop_empty_window (a : args) (stdin : list string) :
  until a < since a ->
  exists r,
    Main.read_loop main_info_filters pretty_printers registered a stdin []
    = ([], r)
    /\ (r = Ok [] \/ exists e, r = Raise e).
Proof.
  intros Hw. induction stdin as [|line stdin (r & IH & Hr)]; simpl.
  - exists (Ok []). split; [reflexivity | now left].
  - destruct (parse_message_total line) as [msg ->]. simpl.
    pose proof (should_process_empty_window registered a msg Hw) as Hsp.
    destruct (should_process registered a msg) as [[|]|e]; simpl.
    + congruence.
    + rewrite IH. exists r. now split.
    + exists (Raise e). split; [reflexivity | right; eauto].
Qed.

End LoopFacts.

(* ================================================================= *)
(** ** Equivalence keys and the table of counts                        *)
(* ================================================================= *)

Section KeyFacts.

Lemma value_eqb_eq (a b : value) : value_eqb a b = true <-> a = b.
Proof.
  destruct a, b; simpl; try (split; discriminate).
  - rewrite String.eqb_eq. split; congruence.
  - rewrite Z.eqb_eq. split; congruence.
Qed.

Lemma option_value_eqb_eq (a b : option value) :
  option_value_eqb a b = true <-> a = b.
Proof.
  destruct a, b; simpl; try (split; (discriminate || reflexivity)).
  rewrite value_eqb_eq. split; congruence.
Qed.

(** Two keys are equal exactly when every field has the same value, or
    is missing, in both. *)
Lemma FrozenDict_eqb_iff (a b : dict) :
  FrozenDict_eqb a b = true <-> forall k, get k a = get k b.
Proof.
  unfold FrozenDict_eqb. rewrite forallb_forall. split.
  - intros H k.
    destruct (in_dec string_dec k (keys a ++ keys b)) as [Hin|Hout].
    + now apply option_value_eqb_eq, H.
    + assert (~ In k (keys a) /\ ~ In k (keys b)) as [Ha Hb]
        by (split; intros Hk; apply Hout, in_or_app; auto).
      apply get_none_iff in Ha, Hb. congruence.
  - intros H k _. now apply option_value_eqb_eq.
Qed.

Lemma FrozenDict_eqb_refl (a : dict) : FrozenDict_eqb a a = true.
Proof. now apply FrozenDict_eqb_iff. Qed.

Lemma FrozenDict_eqb_sym (a b : dict) :
  FrozenDict_eqb a b = FrozenDict_eqb b a.
Proof.
  destruct (FrozenDict_eqb a b) eqn:E1, (FrozenDict_eqb b a) eqn:E2;
    try reflexivity.
  - rewrite FrozenDict_eqb_iff in E1.
    assert (FrozenDict_eqb b a = true)
      by (apply FrozenDict_eqb_iff; intros k; now rewrite E1).
    congruence.
  - rewrite FrozenDict_eqb_iff in E2.
    assert (FrozenDict_eqb a b = true)
      by (apply FrozenDict_eqb_iff; intros k; now rewrite E2).
    congruence.
Qed.

(** Equal keys compare alike with every other key. *)
Lemma FrozenDict_eqb_compat (a b c : dict) :
  FrozenDict_eqb a b = true -> FrozenDict_eqb c a = FrozenDict_eqb c b.
Proof.
  intros Hab. rewrite FrozenDict_eqb_iff in Hab.
  destruct (FrozenDict_eqb c a) eqn:E1, (FrozenDict_eqb c b) eqn:E2;
    try reflexivity.
  - rewrite FrozenDict_eqb_iff in E1.
    assert (FrozenDict_eqb c b = true)
      by (apply FrozenDict_eqb_iff; intros k; now rewrite E1, Hab).
    congruence.
  - rewrite FrozenDict_eqb_iff in E2.
    assert (FrozenDict_eqb c a = true)
      by (apply FrozenDict_eqb_iff; intros k; now rewrite E2, Hab).
    congruence.
Qed.

Lemma seen_get_compat (a b : dict) (t : table) :
  FrozenDict_eqb a b = true -> seen_get a t = seen_get b t.
Proof.
  intros Hab. induction t as [|[k n] t IH]; simpl; [reflexivity|].
  now rewrite (FrozenDict_eqb_compat a b k Hab), IH.
Qed.

(** Assigning a count changes no key and moves no entry. *)
Lemma seen_set_keys (key : dict) (n m : Z) (t : table) :
  seen_get key t = Some m -> map fst (seen_set key n t) = map fst t.
Proof.
  induction t as [|[k c] t IH]; simpl; [discriminate|].
  destruct (FrozenDict_eqb k key); simpl; [reflexivity|].
  intros H. now rewrite IH.
Qed.

Lemma seen_set_new (key : dict) (n : Z) (t : table) :
  seen_get key t = None -> seen_set key n t = t ++ [(key, n)].
Proof.
  induction t as [|[k c] t IH]; simpl; [reflexivity|].
  destruct (FrozenDict_eqb k key); [discriminate|].
  intros H. now rewrite IH.
Qed.

Lemma seen_get_set (key key' : dict) (n : Z) (t : table) :
  seen_get key' (seen_set key n t) =
  if FrozenDict_eqb key key' then Some n else seen_get key' t.
Proof.
  induction t as [|[k c] t IH]; simpl.
  - reflexivity.
  - destruct (FrozenDict_eqb k key) eqn:E; simpl.
    + assert (Heq : FrozenDict_eqb key key' = FrozenDict_eqb k key').
      { rewrite (FrozenDict_eqb_sym key key'), (FrozenDict_eqb_sym k key').
        symmetry. now apply FrozenDict_eqb_compat. }
      rewrite Heq. now destruct (FrozenDict_eqb k key').
    + destruct (FrozenDict_eqb k key') eqn:E'; [|exact IH].
      rewrite <- (FrozenDict_eqb_compat k key' key E').
      rewrite (FrozenDict_eqb_sym key k). now rewrite E.
Qed.

End KeyFacts.

Section SummaryFacts.

Lemma distinct_filter (f : dict -> bool) (l : list dict) :
  distinct l -> distinct (filter f l).
Proof.
  induction l as [|k l IH]; simpl; [auto|].
  intros [Hk Hl]. destruct (f k); simpl; [|auto].
  split; [|auto]. intros k' Hin. apply filter_In in Hin as [Hin _]. auto.
Qed.

Lemma first_seen_distinct (stream : list dict) :
  distinct (Spec.first_seen stream).
Proof.
  induction stream as [|k stream IH]; simpl; [exact I|].
  split; [|now apply distinct_filter].
  intros k' Hin. apply filter_In in Hin as [_ Hk].
  now apply negb_true_iff in Hk.
Qed.

Lemma first_seen_incl (stream : list dict) (k : dict) :
  In k (Spec.first_seen stream) -> In k stream.
Proof.
  induction stream as [|k0 stream IH]; simpl; [auto|].
  intros [->|Hin]; [now left|].
  apply filter_In in Hin as [Hin _]. auto.
Qed.

Lemma first_seen_snoc (stream : list dict) (key : dict) :
  Spec.first_seen (stream ++ [key]) =
  if seen_in key stream then Spec.first_seen stream
  else Spec.first_seen stream ++ [key].
Proof.
  induction stream as [|k stream IH]; simpl; [reflexivity|].
  rewrite IH. destruct (FrozenDict_eqb k key) eqn:E; simpl.
  - destruct (seen_in key stream); [reflexivity|].
    rewrite filter_app. simpl. rewrite E. simpl. now rewrite app_nil_r.
  - destruct (seen_in key stream); [reflexivity|].
    rewrite filter_app. simpl. now rewrite E.
Qed.

Lemma occurrences_snoc (key k : dict) (stream : list dict) :
  Spec.occurrences key (stream ++ [k]) =
  Spec.occurrences key stream + (if FrozenDict_eqb key k then 1 else 0).
Proof.
  unfold Spec.occurrences. rewrite filter_app, length_app. simpl.
  destruct (FrozenDict_eqb key k); simpl; lia.
Qed.

Lemma occurrences_compat (a b : dict) (stream : list dict) :
  FrozenDict_eqb a b = true ->
  Spec.occurrences a stream = Spec.occurrences b stream.
Proof.
  intros Hab. unfold Spec.occurrences. f_equal. f_equal.
  apply filter_ext. intros k.
  rewrite (FrozenDict_eqb_sym a k), (FrozenDict_eqb_sym b k).
  now apply FrozenDict_eqb_compat.
Qed.

Lemma occurrences_unseen (key : dict) (stream : list dict) :
  seen_in key stream = false -> Spec.occurrences key stream = 0.
Proof.
  unfold Spec.occurrences, seen_in. induction stream as [|k stream IH]; simpl.
  - reflexivity.
  - intros H. apply orb_false_iff in H as [Hk Hs].
    rewrite FrozenDict_eqb_sym, Hk. auto.
Qed.

Lemma seen_in_first_seen (key : dict) (stream : list dict) :
  seen_in key stream = false ->
  forall k, In k (Spec.first_seen stream) -> FrozenDict_eqb k key = false.
Proof.
  intros H k Hin. apply first_seen_incl in Hin.
  unfold seen_in in H.
  destruct (FrozenDict_eqb k key) eqn:E; [|reflexivity].
  assert (existsb (fun k => FrozenDict_eqb k key) stream = true)
    by (apply existsb_exists; eauto).
  congruence.
Qed.

Lemma existsb_filter_irrelevant (f g : dict -> bool) (l : list dict) :
  (forall x, f x = false -> g x = false) ->
  existsb g (filter f l) = existsb g l.
Proof.
  intros H. induction l as [|x l IH]; simpl; [reflexivity|].
  destruct (f x) eqn:E; simpl; rewrite IH; [reflexivity|].
  now rewrite (H x E).
Qed.

(** A key was seen exactly when the first occurrences hold an equal
    key. *)
Lemma seen_in_first_seen_eq (key : dict) (stream : list dict) :
  seen_in key (Spec.first_seen stream) = seen_in key stream.
Proof.
  unfold seen_in. induction stream as [|k stream IH]; simpl; [reflexivity|].
  destruct (FrozenDict_eqb k key) eqn:E; simpl; [reflexivity|].
  rewrite existsb_filter_irrelevant; [exact IH|].
  intros x Hx. apply negb_false_iff in Hx.
  rewrite FrozenDict_eqb_sym, <- (FrozenDict_eqb_compat k x key Hx).
  now rewrite FrozenDict_eqb_sym.
Qed.

Lemma seen_get_counted (cnt : dict -> Z) (key : dict) (l : list dict) :
  (forall a b, FrozenDict_eqb a b = true -> cnt a = cnt b) ->
  seen_get key (map (fun k => (k, cnt k)) l) =
  if seen_in key l then Some (cnt key) else None.
Proof.
  intros Hcnt. unfold seen_in. induction l as [|k l IH]; simpl; [reflexivity|].
  destruct (FrozenDict_eqb k key) eqn:E; simpl; [|exact IH].
  now rewrite (Hcnt k key E).
Qed.

(** Looking a key up in the summary of a stream. *)
Lemma seen_get_summary (key : dict) (stream : list dict) :
  seen_get key (Spec.summary stream) =
  if seen_in key stream then Some (Spec.occurrences key stream) else None.
Proof.
  unfold Spec.summary.
  rewrite (seen_get_counted (fun k => Spec.occurrences k stream)).
  - now rewrite seen_in_first_seen_eq.
  - intros a b Hab. now apply occurrences_compat.
Qed.

Lemma seen_set_counted (cnt : dict -> Z) (key : dict) (n : Z) (l : list dict) :
  distinct l -> seen_in key l = true ->
  seen_set key n (map (fun k => (k, cnt k)) l) =
  map (fun k => (k, if FrozenDict_eqb k key then n else cnt k)) l.
Proof.
  unfold seen_in. induction l as [|k l IH]; simpl; [discriminate|].
  intros [Hk Hl] Hseen. destruct (FrozenDict_eqb k key) eqn:E.
  - f_equal. apply map_ext_in. intros k' Hin.
    replace (FrozenDict_eqb k' key) with false; [reflexivity|].
    rewrite <- (FrozenDict_eqb_compat k key k' E).
    rewrite FrozenDict_eqb_sym. symmetry. now apply Hk.
  - f_equal. now apply IH.
Qed.

(** Counting one more key turns the summary of a stream into the
    summary of the stream with that key at its end. *)
Lemma bump_summary (key : dict) (stream : list dict) :
  bump key (Spec.summary stream) = Spec.summary (stream ++ [key]).
Proof.
  unfold bump. rewrite seen_get_summary.
  unfold Spec.summary. rewrite first_seen_snoc.
  destruct (seen_in key stream) eqn:Hseen.
  - rewrite seen_set_counted;
      [|apply first_seen_distinct | now rewrite seen_in_first_seen_eq].
    apply map_ext. intros k. rewrite occurrences_snoc.
    destruct (FrozenDict_eqb k key) eqn:E.
    + now rewrite (occurrences_compat k key stream E).
    + now rewrite Z.add_0_r.
  - rewrite seen_set_new
      by (rewrite (seen_get_counted (fun k => Spec.occurrences k stream));
          [now rewrite seen_in_first_seen_eq, Hseen
          |intros a b Hab; now apply occurrences_compat]).
    rewrite map_app. simpl. f_equal.
    + apply map_ext_in. intros k Hin. rewrite occurrences_snoc.
      rewrite (seen_in_first_seen key stream Hseen k Hin). now rewrite Z.add_0_r.
    + rewrite occurrences_snoc, FrozenDict_eqb_refl.
      now rewrite (occurrences_unseen key stream Hseen).
Qed.

(** The table after a stream of keys is the summary of the stream. *)
Lemma fold_bump_summary (stream : list dict) :
  fold_left (fun t key => bump key t) stream [] = Spec.summary stream.
Proof.
  induction stream as [|key stream IH] using rev_ind; [reflexivity|].
  rewrite fold_left_app. simpl. rewrite IH. apply bump_summary.
Qed.

End SummaryFacts.

(* ================================================================= *)
(** ** The aggregation loop                                            *)
(* ================================================================= *)

Lemma bind_lift_ok {A B} (a : A) (f : A -> printed B) :
  bind_io (lift (Ok a)) f = f a.
Proof. unfold bind_io, lift. now destruct (f a). Qed.

Lemma bind_lift_raise {A B} (e : exn) (f : A -> printed B) :
  bind_io (lift (Raise e)) f = ([], Raise e).
Proof. reflexivity. Qed.

Lemma bind_quiet_ok {A B} (a : A) (f : A -> printed B) :
  bind_io ([], Ok a) f = f a.
Proof. unfold bind_io. now destruct (f a). Qed.

Section EngineFacts.

Variable main_info_filters : value -> dict -> outcome dict.
Variable pretty_printers : value -> dict -> string -> printed string.
Variable registered : value -> bool.

Local Abbreviation process :=
  (Main.process main_info_filters pretty_printers).
Local Abbreviation read_loop :=
  (Main.read_loop main_info_filters pretty_printers registered).
Local Abbreviation flush := (Main.flush pretty_printers).
Local Abbreviation accepts :=
  (accepts main_info_filters pretty_printers registered).
Local Abbreviation rendered := (rendered pretty_printers).

(** One record when grouping is on: the block is printed only for a new
    key outside count mode; the key is counted in every case. *)
Lemma process_grouping (a : args) (msg : dict) (ty : value) (info : dict)
      (diag : list string) (text : string) (seen : table) :
  (merge a || count a)%bool = true ->
  get "type" msg = Some ty ->
  main_info_filters ty msg = Ok info ->
  pretty_printers ty msg EmptyString = (diag, Ok text) ->
  process a msg seen
  = (diag ++ (if (negb (seen_mem (FrozenDict info) seen) && negb (count a))%bool
              then [text] else []),
     Ok (bump (FrozenDict info) seen)).
Proof.
  intros Hmode Hty Hinfo Hpp. unfold Main.process, getitem.
  rewrite Hty. simpl. rewrite Hinfo. simpl. rewrite Hpp. simpl.
  rewrite Hmode.
  destruct (seen_mem (FrozenDict info) seen), (count a); simpl;
    now rewrite ?app_nil_r.
Qed.

Lemma bind_io_result {A B} (out : list string) (a : A) (f : A -> printed B) :
  bind_io (out, Ok a) f = (out ++ fst (f a), snd (f a)).
Proof. unfold bind_io. now destruct (f a). Qed.

Lemma seen_mem_summary (key : dict) (stream : list dict) :
  seen_mem key (Spec.summary stream) = seen_in key stream.
Proof.
  unfold seen_mem. rewrite seen_get_summary.
  now destruct (seen_in key stream).
Qed.

(** The loop when grouping is on, started on the table of the keys met
    so far. *)
Lemma read_loop_grouping (a : args) (stdin : list string)
      (items : list shown) :
  (merge a || count a)%bool = true -> accepts a stdin items ->
  forall before,
    read_loop a stdin (Spec.summary before)
    = ((if count a then stream_prints items else merge_prints before items),
       Ok (Spec.summary (before ++ map shown_key items))).
Proof.
  intros Hmode Hacc. induction Hacc as
      [|line rest items msg Hp Hs _ IH
       |line rest items msg ty info diag text Hp Hs Hty Hinfo Hpp _ IH];
    intros before.
  - simpl. rewrite app_nil_r. now destruct (count a).
  - cbn [Main.read_loop]. rewrite Hp, ?bind_lift_ok, Hs, ?bind_lift_ok.
    now rewrite IH.
  - cbn [Main.read_loop]. rewrite Hp, ?bind_lift_ok, Hs, ?bind_lift_ok.
    rewrite (process_grouping a msg ty info diag text (Spec.summary before));
      auto.
    rewrite bump_summary, seen_mem_summary, bind_io_result, IH.
    unfold stream_prints.
    cbn [fst snd map merge_prints flat_map shown_key shown_prints shown_block].
    rewrite <- !app_assoc. cbn [app].
    destruct (count a).
    + now rewrite andb_false_r.
    + rewrite andb_true_r.
      now destruct (seen_in (FrozenDict info) before).
Qed.

Lemma flush_rendered (t : table) (outs : list (list string * string)) :
  rendered t outs -> flush t = (summary_prints outs, Ok tt).
Proof.
  induction 1 as [|[info n] [diag block] t outs (ty & Hty & Hpp) _ IH]; simpl.
  - reflexivity.
  - simpl in Hty, Hpp. unfold getitem, Main.count_suffix.
    rewrite Hty. simpl. rewrite Hpp. simpl. rewrite IH.
    simpl. now rewrite <- !app_assoc.
Qed.

Lemma count_implies_merge_count (a : args) :
  count (Main.count_implies_merge a) = count a.
Proof. unfold Main.count_implies_merge. now destruct (count a) eqn:E. Qed.

End EngineFacts.

(* ================================================================= *)
(** ** Dict objects: what the default extractor returns                *)
(* ================================================================= *)

Section ObjFacts.

Lemma load_last (h : Obj.heap) (d : dict) :
  Obj.load (List.length h) (h ++ [d]) = d.
Proof.
  unfold Obj.load. rewrite app_nth2 by lia.
  now rewrite Nat.sub_diag.
Qed.

Lemma store_last (h : Obj.heap) (d d' : dict) :
  Obj.store (List.length h) d' (h ++ [d]) = h ++ [d'].
Proof. induction h as [|x h IH]; simpl; [reflexivity | now rewrite IH]. Qed.

Lemma remove_absent (k : string) (d : dict) :
  mem k d = false -> remove k d = d.
Proof.
  unfold mem. induction d as [|[k' v'] d IH]; simpl; [reflexivity|].
  destruct (String.eqb k' k); [discriminate|].
  intros H. now rewrite IH.
Qed.

(** [del_if_present] on the newest object of the store. *)
Lemma del_if_present_last (h : Obj.heap) (d : dict) (k : string) :
  Parsers.del_if_present (List.length h) k (h ++ [d])
  = (h ++ [remove k d], Ok tt).
Proof.
  unfold Parsers.del_if_present, Obj.bind, Obj.mem, Obj.delitem, Obj.ret,
    delitem.
  rewrite load_last. destruct (mem k d) eqn:E.
  - now rewrite load_last, E, store_last.
  - now rewrite remove_absent.
Qed.

End ObjFacts.

(* ================================================================= *)
(** ** The tokenizer accepts every line of the shape                  *)
(* ================================================================= *)

Section Trimming.

Local Open Scope string_scope.

Lemma lstrip_blank_append (a s : string) :
  Spec.blank a -> lstrip (a ++ s) = lstrip s.
Proof.
  unfold Spec.blank. induction a as [|c a IH]; simpl; [reflexivity|].
  intros H. apply andb_true_iff in H as [-> H]. auto.
Qed.

Lemma rstrip_blank (b : string) : Spec.blank b -> rstrip b = EmptyString.
Proof.
  unfold Spec.blank. induction b as [|c b IH]; simpl; [reflexivity|].
  intros H. apply andb_true_iff in H as [-> H]. now rewrite IH.
Qed.

Lemma rstrip_append_blank (s b : string) :
  Spec.blank b -> rstrip (s ++ b) = rstrip s.
Proof.
  intros Hb. induction s as [|c s IH]; simpl.
  - now apply rstrip_blank.
  - now rewrite IH.
Qed.

Lemma lstrip_append_cases (s b : string) :
  lstrip (s ++ b) = lstrip s ++ b
  \/ (lstrip s = EmptyString /\ lstrip (s ++ b) = lstrip b).
Proof.
  induction s as [|c s IH]; simpl.
  - right. now split.
  - destruct (isspace c); [exact IH | now left].
Qed.

Lemma strip_blanks (a s b : string) :
  Spec.blank a -> Spec.blank b -> strip (a ++ s ++ b) = strip s.
Proof.
  intros Ha Hb. unfold strip. rewrite lstrip_blank_append by assumption.
  destruct (lstrip_append_cases s b) as [->|[Hs ->]].
  - now apply rstrip_append_blank.
  - rewrite Hs, (lstrip_blank b Hb). reflexivity.
Qed.

(** A text that ends with no blank keeps its end when it is put after
    another text. *)
Lemma rstrip_append_kept (s1 s2 : string) :
  rstrip s2 <> EmptyString -> rstrip (s1 ++ s2) = s1 ++ rstrip s2.
Proof.
  intros H. induction s1 as [|c s1 IH]; simpl; [reflexivity|].
  rewrite IH. destruct (s1 ++ rstrip s2) eqn:E; [|reflexivity].
  apply append_eq_nil in E as [_ E]. contradiction.
Qed.

End Trimming.

Section Acceptance.

Local Open Scope string_scope.

Lemma take_all (s : string) : take (String.length s) s = s.
Proof. induction s; simpl; congruence. Qed.

Lemma consumed_all (s : string) : consumed s EmptyString = s.
Proof.
  unfold consumed. simpl. rewrite Nat.sub_0_r. apply take_all.
Qed.

Lemma plus_greedy_all {R : Type} (p : ascii -> bool) (s : string)
      (k : string -> option R) (x : R) :
  Spec.run_of p s -> k EmptyString = Some x -> plus_greedy p s k = Some x.
Proof.
  intros Hs Hk. rewrite <- (append_nil_r s).
  now apply plus_greedy_max.
Qed.

(** The part of the pattern from [audit(] on, on a text it describes. *)
Lemma audit_tail_complete (c : captures) (seconds sub seq body : string) :
  Spec.run_of digit seconds -> Spec.run_of digit sub ->
  Spec.run_of digit seq -> Spec.run_of dot body ->
  run (Lit "audit(" +++ Group 2 (Plus digit) +++ Lit "." +++ Plus digit
       +++ Lit ":" +++ Plus digit +++ Lit "): " +++ Group 3 (Plus dot))
      ("audit(" ++ seconds ++ "." ++ sub ++ ":" ++ seq ++ "): " ++ body) c
      (fun rest c' => match rest with
                      | EmptyString => Some c'
                      | _ => None
                      end)
  = Some ((3%nat, body) :: (2%nat, seconds) :: c).
Proof.
  intros Hsecs Hsub Hseq Hbody. cbn [run].
  rewrite strip_prefix_append.
  rewrite (plus_greedy_max digit seconds
             ("." ++ sub ++ ":" ++ seq ++ "): " ++ body) _
             ((3%nat, body) :: (2%nat, seconds) :: c) Hsecs eq_refl);
    [reflexivity|].
  rewrite strip_prefix_append.
  rewrite (plus_greedy_max digit sub (":" ++ seq ++ "): " ++ body) _
             ((3%nat, body) :: (2%nat, seconds) :: c) Hsub eq_refl);
    [reflexivity|].
  rewrite strip_prefix_append.
  rewrite (plus_greedy_max digit seq ("): " ++ body) _
             ((3%nat, body) :: (2%nat, seconds) :: c) Hseq eq_refl);
    [reflexivity|].
  rewrite strip_prefix_append.
  rewrite (plus_greedy_all dot body _
             ((3%nat, body) :: (2%nat, seconds) :: c) Hbody);
    [reflexivity|].
  now rewrite consumed_all, consumed_append.
Qed.

(** The whole pattern matches every text of the shape. *)
Lemma audit_line_complete (t tag seconds body : string) :
  Spec.audit_shape t tag seconds body ->
  fullmatch audit_line t
  = Some [(3%nat, body); (2%nat, seconds); (1%nat, "type=" ++ tag)].
Proof.
  intros (msg_eq & sub & seq & -> & Htag & Hmsg & Hsecs & Hsub & Hseq & Hbody).
  unfold fullmatch, audit_line. cbn [run].
  rewrite strip_prefix_append.
  rewrite (plus_greedy_max tag_char tag
             (" " ++ msg_eq ++ "audit(" ++ seconds ++ "." ++ sub ++ ":"
                  ++ seq ++ "): " ++ body) _
             [(3%nat, body); (2%nat, seconds); (1%nat, "type=" ++ tag)]
             Htag eq_refl);
    [reflexivity|].
  rewrite strip_prefix_append.
  rewrite consumed_append_assoc.
  pose proof (audit_tail_complete [(1%nat, "type=" ++ tag)]
                seconds sub seq body Hsecs Hsub Hseq Hbody) as Htail.
  cbn [run] in Htail.
  destruct Hmsg as [-> | ->].
  - change (EmptyString ++ "audit(" ++ seconds ++ "." ++ sub ++ ":"
                         ++ seq ++ "): " ++ body)
      with ("audit(" ++ seconds ++ "." ++ sub ++ ":" ++ seq ++ "): " ++ body).
    change (strip_prefix "msg=" ("audit(" ++ seconds ++ "." ++ sub ++ ":"
                                          ++ seq ++ "): " ++ body))
      with (@None string).
    exact Htail.
  - rewrite strip_prefix_append. now rewrite Htail.
Qed.

End Acceptance.

Section Normalizing.

Local Open Scope string_scope.

Lemma audit_shape_facts (t tag seconds body : string) :
  Spec.audit_shape t tag seconds body -> rstrip body = body ->
  lstrip t = t /\ rstrip t = t /\ t <> EmptyString
  /\ contains "audit" t = true /\ startswith t "[" = false.
Proof.
  intros (msg_eq & sub & seq & -> & Htag & Hmsg & Hsecs & Hsub & Hseq & Hbody)
         Hr.
  split; [reflexivity|]. split; [|split; [discriminate|split]].
  - set (p := "type=" ++ tag ++ " " ++ msg_eq ++ "audit(" ++ seconds ++ "."
                ++ sub ++ ":" ++ seq ++ "): ").
    assert (E : "type=" ++ tag ++ " " ++ msg_eq ++ "audit(" ++ seconds ++ "."
                  ++ sub ++ ":" ++ seq ++ "): " ++ body = p ++ body)
      by (subst p; now repeat (progress (rewrite ?append_assoc; simpl))).
    rewrite E, rstrip_append_kept; rewrite Hr; [reflexivity|].
    now destruct Hbody.
  - apply contains_true_iff.
    exists ("type=" ++ tag ++ " " ++ msg_eq),
      ("(" ++ seconds ++ "." ++ sub ++ ":" ++ seq ++ "): " ++ body).
    now repeat (progress (rewrite ?append_assoc; simpl)).
  - apply startswith_false. intros rest H. discriminate H.
Qed.

Lemma rewritten_of_groups (tag seconds body : string) :
  ("type=" ++ tag) ++ " " ++ "time=" ++ seconds ++ " " ++ body
  = rewritten tag seconds body.
Proof. unfold rewritten. now repeat (progress (rewrite ?append_assoc; simpl)). Qed.

Lemma length_eqb_0 (t : string) :
  t <> EmptyString -> Nat.eqb (String.length t) 0 = false.
Proof. now destruct t. Qed.

(** A line of the shape with no blank at either end is rewritten. *)
Lemma normalize_shaped (t tag seconds body : string) :
  Spec.audit_shape t tag seconds body -> rstrip body = body ->
  normalize t = Ok (Some (rewritten tag seconds body)).
Proof.
  intros Hshape Hr.
  destruct (audit_shape_facts _ _ _ _ Hshape Hr)
    as (Hl & Hrt & Hne & Haudit & Hbr).
  unfold normalize, strip. rewrite Hl, Hrt, Haudit, Hbr.
  rewrite (length_eqb_0 t Hne). cbn [orb negb].
  rewrite (audit_line_complete _ _ _ _ Hshape).
  cbn [group_str group Nat.eqb Py.bind].
  now rewrite rewritten_of_groups.
Qed.

Lemma dmesg_prefix_complete (a b t : string) :
  Spec.run_of digit a -> Spec.run_of digit b ->
  match_ dmesg_prefix (dmesg_stamp a b ++ t) = Some (t, []).
Proof.
  intros Ha Hb. unfold match_, dmesg_prefix, dmesg_stamp.
  replace (("[" ++ a ++ "." ++ b ++ "] audit: ") ++ t)
    with ("[" ++ a ++ "." ++ b ++ "] audit: " ++ t)
    by (now repeat (progress (rewrite ?append_assoc; simpl))).
  cbn [run]. rewrite strip_prefix_append.
  apply plus_greedy_max; [exact Ha | reflexivity |].
  rewrite strip_prefix_append.
  apply plus_greedy_max; [exact Hb | reflexivity |].
  now rewrite strip_prefix_append.
Qed.

(** The same line behind a kernel time stamp is rewritten alike. *)
Lemma normalize_stamped (a b t tag seconds body : string) :
  Spec.run_of digit a -> Spec.run_of digit b ->
  Spec.audit_shape t tag seconds body -> rstrip body = body ->
  normalize (dmesg_stamp a b ++ t) = Ok (Some (rewritten tag seconds body)).
Proof.
  intros Ha Hb Hshape Hr.
  destruct (audit_shape_facts _ _ _ _ Hshape Hr)
    as (Hl & Hrt & Hne & Haudit & Hbr).
  assert (Hstrip : strip (dmesg_stamp a b ++ t) = dmesg_stamp a b ++ t).
  { unfold strip.
    assert (El : lstrip (dmesg_stamp a b ++ t) = dmesg_stamp a b ++ t)
      by reflexivity.
    rewrite El, rstrip_append_kept; rewrite Hrt; [reflexivity | assumption]. }
  assert (Hc : contains "audit" (dmesg_stamp a b ++ t) = true).
  { apply contains_true_iff. exists ("[" ++ a ++ "." ++ b ++ "] "), (": " ++ t).
    unfold dmesg_stamp. now repeat (progress (rewrite ?append_assoc; simpl)). }
  assert (Hs : startswith (dmesg_stamp a b ++ t) "[" = true).
  { apply prefix_true_iff. now exists (a ++ "." ++ b ++ "] audit: " ++ t);
      unfold dmesg_stamp; repeat (progress (rewrite ?append_assoc; simpl)). }
  assert (Hlen : dmesg_stamp a b ++ t <> EmptyString) by discriminate.
  unfold normalize. rewrite Hstrip, Hc, Hs, (length_eqb_0 _ Hlen).
  cbn [orb negb]. unfold sub_anchored.
  rewrite (dmesg_prefix_complete a b t Ha Hb).
  rewrite (audit_line_complete _ _ _ _ Hshape).
  cbn [group_str group Nat.eqb Py.bind].
  now rewrite rewritten_of_groups.
Qed.

Lemma parse_message_of_normalize (line trimmed : string) :
  normalize line = Ok (Some trimmed) ->
  parse_message line = Ok (Some (map coerce_kv (fields trimmed))).
Proof.
  intros Hn.
  destruct (parse_message_spec line)
    as [[Hnone _]|(tag & secs & body & _ & Hnorm & Hp)]; [congruence|].
  rewrite Hnorm in Hn. injection Hn as <-. exact Hp.
Qed.

Lemma rstrip_cons (c : ascii) (s : string) :
  rstrip (String c s)
  = match rstrip s with
    | EmptyString => if isspace c then EmptyString else String c EmptyString
    | t => String c t
    end.
Proof. reflexivity. Qed.

(** Stripping leaves nothing to strip. *)
Lemma rstrip_idem (s : string) : rstrip (rstrip s) = rstrip s.
Proof.
  induction s as [|c s IH]; [reflexivity|]. rewrite rstrip_cons.
  destruct (rstrip s) as [|d t] eqn:E.
  - destruct (isspace c) eqn:Hc; [reflexivity|].
    rewrite rstrip_cons. cbn [rstrip]. now rewrite Hc.
  - rewrite rstrip_cons, IH. reflexivity.
Qed.

Lemma strip_trimmed (s : string) : rstrip (strip s) = strip s.
Proof. unfold strip. apply rstrip_idem. Qed.

(** A text that ends with no blank has no blank at the end of any of
    its non-empty ends. *)
Lemma rstrip_suffix_kept (p s : string) :
  rstrip (p ++ s) = p ++ s -> s <> EmptyString -> rstrip s = s.
Proof.
  intros H Hne. induction p as [|c p IH]; [exact H|].
  apply IH. cbn [append rstrip] in H.
  destruct (rstrip (p ++ s)) as [|d t] eqn:E.
  - exfalso. destruct (isspace c); [discriminate|].
    injection H as H. symmetry in H. apply append_eq_nil in H as [_ H].
    contradiction.
  - now injection H.
Qed.

Lemma audit_shape_body_trimmed (q t tag seconds body : string) :
  Spec.audit_shape t tag seconds body ->
  rstrip (q ++ t) = q ++ t -> rstrip body = body.
Proof.
  intros (msg_eq & sub & seq & -> & _ & _ & _ & _ & _ & Hbody) H.
  apply rstrip_suffix_kept
    with (q ++ "type=" ++ tag ++ " " ++ msg_eq ++ "audit(" ++ seconds ++ "."
            ++ sub ++ ":" ++ seq ++ "): ");
    [|now destruct Hbody].
  replace ((q ++ "type=" ++ tag ++ " " ++ msg_eq ++ "audit(" ++ seconds ++ "."
              ++ sub ++ ":" ++ seq ++ "): ") ++ body)
    with (q ++ "type=" ++ tag ++ " " ++ msg_eq ++ "audit(" ++ seconds ++ "."
            ++ sub ++ ":" ++ seq ++ "): " ++ body)
    by (now repeat (progress (rewrite ?append_assoc; simpl))).
  exact H.
Qed.

Lemma dmesg_stamped_stamp (t rest : string) :
  Spec.dmesg_stamped t rest ->
  exists a b,
    t = dmesg_stamp a b ++ rest /\ Spec.run_of digit a /\ Spec.run_of digit b.
Proof.
  intros (a & b & -> & Ha & Hb). exists a, b. split; [|now split].
  unfold dmesg_stamp. now repeat (progress (rewrite ?append_assoc; simpl)).
Qed.

(** Every accepted line has the shape, with a body that ends with no
    blank: the body as the tokenizer scans it. *)
Lemma accepted_line_shape (line trimmed : string) :
  normalize line = Ok (Some trimmed) ->
  exists tag seconds body,
    Spec.line_shape line tag seconds body /\ rstrip body = body.
Proof.
  unfold normalize.
  destruct (String.length (strip line) =? 0)%nat eqn:Hlen; [discriminate|].
  destruct (contains "audit" (strip line)) eqn:Haudit; [|discriminate].
  simpl.
  set (t := if startswith (strip line) "[" then
              sub_anchored dmesg_prefix (strip line) else strip line).
  destruct (fullmatch audit_line t) as [m|] eqn:Hm; [|discriminate].
  intros _. apply audit_line_sound in Hm as (tag & secs & body & Hshape & ->).
  exists tag, secs, body.
  destruct (strip_middle line) as (a & b & Hline & Ha & Hb).
  pose proof (strip_trimmed line) as Htrim.
  assert (Hplain : t = strip line ->
                   Spec.line_shape line tag secs body /\ rstrip body = body).
  { intros E. rewrite E in Hshape. split.
    - exists a, (strip line), b. repeat split; try assumption. now left.
    - now apply (audit_shape_body_trimmed EmptyString (strip line) tag secs). }
  subst t. destruct (startswith (strip line) "["); [|now apply Hplain].
  unfold sub_anchored in *.
  destruct (match_ dmesg_prefix (strip line)) as [[rest c]|] eqn:E;
    [|now apply Hplain].
  apply dmesg_prefix_sound in E. split.
  - exists a, (strip line), b. repeat split; try assumption.
    right. now exists rest.
  - destruct (dmesg_stamped_stamp _ _ E) as (x & y & Hst & _ & _).
    rewrite Hst in Htrim.
    now apply (audit_shape_body_trimmed (dmesg_stamp x y) rest tag secs).
Qed.

(** A line of the shape, the body given without blanks at its end, is
    rewritten from the parts of that very reading. *)
Lemma normalize_of_shape (line tag seconds body : string) :
  Spec.line_shape line tag seconds body -> rstrip body = body ->
  normalize line = Ok (Some (rewritten tag seconds body)).
Proof.
  intros (a & t & b & -> & Ha & Hb & Ht) Hr.
  assert (E : normalize (a ++ t ++ b) = normalize t)
    by (unfold normalize; now rewrite strip_blanks).
  rewrite E. destruct Ht as [Hshape|(rest & Hst & Hshape)].
  - now apply normalize_shaped.
  - destruct (dmesg_stamped_stamp _ _ Hst) as (x & y & -> & Hx & Hy).
    now apply normalize_stamped.
Qed.

Lemma parse_message_of_shape (line tag seconds body : string) :
  Spec.line_shape line tag seconds body -> rstrip body = body ->
  parse_message line
  = Ok (Some (map coerce_kv (fields (rewritten tag seconds body)))).
Proof.
  intros Hshape Hr.
  exact (parse_message_of_normalize _ _ (normalize_of_shape _ _ _ _ Hshape Hr)).
Qed.

Lemma parse_message_accepted (line : string) (record : dict) :
  parse_message line = Ok (Some record) ->
  exists trimmed, normalize line = Ok (Some trimmed).
Proof.
  intros H.
  destruct (parse_message_spec line)
    as [[_ H']|(tag & secs & body & _ & Hn & _)]; [congruence|].
  eauto.
Qed.

End Normalizing.

(* ================================================================= *)
(** ** The claims                                                      *)
(* ================================================================= *)

(** C1.  The default significant-fields extractor of [parsers.py] is
    meant to return the record without [time], [pid], [fsuid] and [comm]
    as a new object.  It builds that object (the copy, with the four
    fields deleted when present) and then returns its argument: the
    caller gets the source record itself, with every volatile field
    still in it.  The record of an unregistered type keeps its [time]
    and [pid] in its equivalence key. *)
Theorem default_info_filter_returns_source :
  (forall (msg : Obj.ref) (h : Obj.heap),
      Parsers.default_info_filter msg h
      = (h ++ [remove "comm" (remove "fsuid" (remove "pid"
                 (remove "time" (Obj.load msg h))))],
         Ok msg))
  /\ (let msg := [("type", VStr "USER_LOGIN"); ("time", VInt 1600000000);
                  ("pid", VInt 999); ("uid", VInt 0)] in
      Parsers.default_info_filter 0%nat [msg]
      = ([msg; [("type", VStr "USER_LOGIN"); ("uid", VInt 0)]], Ok 0%nat)
      /\ Sample.main_info_filters (VStr "USER_LOGIN") msg = Ok msg).
Proof.
  split; [|repeat split].
  intros msg h. unfold Parsers.default_info_filter.
  unfold Obj.bind at 1. unfold Obj.copy, Obj.new at 1.
  unfold Obj.bind at 1. rewrite del_if_present_last.
  unfold Obj.bind at 1. rewrite del_if_present_last.
  unfold Obj.bind at 1. rewrite del_if_present_last.
  unfold Obj.bind at 1. rewrite del_if_present_last.
  reflexivity.
Qed.

(** C6.  A field a plugin asks for and the record lacks is not always
    replaced by a placeholder: the AppArmor renderer and extractor index
    [apparmor] (and the extractor deletes [pid] and [comm]
    unconditionally), the seccomp extractor indexes [exe] and [syscall],
    the seccomp renderer of [parsers/seccomp.py] indexes [syscall] and
    [arch].  On a record without the field each raises [KeyError]. *)
Theorem missing_field_raises
        (pretty_helper : string -> value -> string -> string -> dict -> dict -> string)
        (format_helper : string -> option value -> string -> string ->
                         list (string * option value) ->
                         list (string * option value) -> string)
        (fromtimestamp : value -> value)
        (decode_signal : value -> value)
        (decode_syscall : value -> value -> value) :
  let avc := [("type", VStr "AVC"); ("time", VInt 1600000000);
              ("pid", VInt 5); ("comm", VStr "x")] in
  let denied := [("type", VStr "AVC"); ("time", VInt 1600000000);
                 ("apparmor", VStr "DENIED")] in
  let seccomp := [("type", VStr "SECCOMP"); ("time", VInt 1600000000);
                  ("exe", VStr "/bin/true")] in
  parse_message "type=AVC msg=audit(1600000000.123:45): pid=5 comm=x"
  = Ok (Some avc)
  /\ Parsers.apparmor_pretty pretty_helper avc EmptyString
     = ([], Raise (KeyError "apparmor"))
  /\ Obj.call Parsers.apparmor_main_info avc = Raise (KeyError "apparmor")
  /\ Obj.call Parsers.apparmor_main_info denied = Raise (KeyError "pid")
  /\ Obj.call Parsers.seccomp_main_info seccomp = Raise (KeyError "syscall")
  /\ Seccomp.seccomp_pretty format_helper fromtimestamp decode_signal
       decode_syscall seccomp EmptyString
     = Raise (KeyError "syscall").
Proof. repeat split. Qed.

(** C10.  A record of the tokenizer has the keys [type] and [time], but
    [time] is not always an integer: a field named [time] in the body is
    stored after the one made from the audit stamp and replaces it.  On
    such a record the comparison in [should_process] raises
    [TypeError]. *)
Theorem body_time_overrides_stamp :
  let line := "type=A audit(1.2:3): time=abc" in
  let record := [("type", VStr "A"); ("time", VStr "abc")] in
  parse_message line = Ok (Some record)
  /\ should_process Parsers.registered
       (Sample.options 0 (2 ^ 64 - 1) false false) (Some record)
     = Raise TypeError
  /\ Main.main Sample.main_info_filters Sample.pretty_printers
       Parsers.registered (Sample.options 0 (2 ^ 64 - 1) false false) [line]
     = ([], Raise TypeError).
Proof. repeat split. Qed.

(** C4.  A line that is blank, or holds no [audit], or has not the
    shape [type=<TAG> [msg=]audit(<seconds>.<subseconds>:<sequence>):
    <body>] (between blanks, the kernel time stamp allowed in front)
    gives no record. *)
Theorem tokenize_rejects (line : string) :
  Spec.blank line
  \/ contains "audit" line = false
  \/ (forall tag seconds body, ~ Spec.line_shape line tag seconds body) ->
  parse_message line = Ok None.
Proof.
  intros H.
  destruct (parse_message_spec line)
    as [[_ Hnone]|(tag & secs & body & Hshape & Hnorm & _)]; [exact Hnone|].
  exfalso. destruct (normalize_cases line)
    as [Hn|(tag' & secs' & body' & _ & Hblank & Haudit & _)]; [congruence|].
  destruct H as [H|[H|H]].
  - contradiction.
  - congruence.
  - exact (H _ _ _ Hshape).
Qed.

Lemma tokenize_rejects_witness :
  contains "audit" "kernel: usb 1-1: new high-speed USB device" = false
  /\ parse_message "kernel: usb 1-1: new high-speed USB device" = Ok None.
Proof.
  split; [reflexivity|].
  apply tokenize_rejects. right. left. reflexivity.
Defined.

(** C3.  The tokenizer never raises.  When the line is accepted, every
    field is read as a string and the record holds each of them
    coerced: a string of decimal digits goes through [int] and a string
    that starts with [0x] through [int] in base 16; the record holds
    the integer, and the string itself when the coercion fails.  For
    decimal digits the integer is the number they denote, and the
    coercion fails only when there are more digits than the
    interpreter's limit of 4300. *)
Theorem values_are_coerced (line : string) :
  (exists o, parse_message line = Ok o)
  /\ (forall trimmed,
         normalize line = Ok (Some trimmed) ->
         all_str (fields trimmed)
         /\ parse_message line
            = Ok (Some (map (fun kv => (fst kv, Spec.coerced_value (snd kv)))
                            (fields trimmed))))
  /\ (forall s,
         Spec.coerced s
         = if Spec.is_decimal s then
             match int_of_str 10 s with
             | Ok n => VInt n
             | Raise _ => VStr s
             end
           else if startswith s "0x" then
             match int_of_str 16 s with
             | Ok n => VInt n
             | Raise _ => VStr s
             end
           else VStr s).
Proof.
  split; [apply parse_message_total|]. split.
  - intros trimmed Hn.
    destruct (parse_message_spec line)
      as [[Hnone _]|(tag & secs & body & _ & Hnorm & Hp)]; [congruence|].
    rewrite Hnorm in Hn. injection Hn as <-.
    split; [apply fields_well_formed | exact Hp].
  - intros s. unfold Spec.coerced.
    destruct (Spec.is_decimal s) eqn:Hdec; [|reflexivity].
    rewrite (int_of_str_decimal s Hdec).
    now destruct (String.length s <=? max_str_digits)%nat.
Qed.

Lemma values_are_coerced_witness :
  normalize Sample.seccomp_line = Ok (Some Sample.seccomp_rewritten)
  /\ parse_message Sample.seccomp_line
     = Ok (Some [("type", VStr "SECCOMP"); ("time", VInt 1600000000);
                 ("pid", VInt 999); ("ip", VInt 127);
                 ("arch", VStr "c000003e"); ("code", VStr "0xzz")]).
Proof.
  split; [reflexivity|].
  exact (proj2 (proj1 (proj2 (values_are_coerced Sample.seccomp_line))
                      Sample.seccomp_rewritten eq_refl)).
Defined.

(** C9, as the code has it.  Every record of the tokenizer has a [type]
    field, and its line has the shape with a body that ends with no
    blank.  For each such reading of the line: when the body carries no
    field named [type], the field holds the tag, as a string, except
    that a tag made of decimal digits only, no more of them than the
    interpreter's limit of 4300, is stored as the integer it denotes. *)
Theorem record_type_field (line : string) (record : dict) :
  parse_message line = Ok (Some record) ->
  mem "type" record = true
  /\ (exists tag seconds body,
         Spec.line_shape line tag seconds body /\ rstrip body = body)
  /\ (forall tag seconds body,
         Spec.line_shape line tag seconds body -> rstrip body = body ->
         mem "type" (fields body) = false ->
         get "type" record
         = Some (if (Spec.is_decimal tag
                     && (String.length tag <=? max_str_digits)%nat)%bool
                 then VInt (Spec.decimal_value tag) else VStr tag)).
Proof.
  intros H. split; [|split].
  - destruct (reserved_fields line record H)
      as (tag & secs & body & _ & _ & Hty & _).
    unfold mem. rewrite Hty. now destruct (get "type" (fields body)).
  - destruct (parse_message_accepted line record H) as [trimmed Hn].
    exact (accepted_line_shape line trimmed Hn).
  - intros tag secs body Hshape Hr Hbody.
    rewrite (parse_message_of_shape _ _ _ _ Hshape Hr) in H.
    injection H as <-.
    destruct (line_shape_runs _ _ _ _ Hshape) as [Htag Hsecs].
    rewrite get_map_coerce, get_fields_rewritten by assumption.
    unfold mem in Hbody.
    destruct (get "type" (fields body)); [discriminate|].
    cbn [get String.eqb Ascii.eqb Bool.eqb option_map Spec.coerced_value].
    now rewrite coerced_tag.
Qed.

Lemma avc_line_shape :
  Spec.line_shape "type=AVC msg=audit(1600000000.123:45): pid=5"
                  "AVC" "1600000000" "pid=5".
Proof.
  exists EmptyString, "type=AVC msg=audit(1600000000.123:45): pid=5", EmptyString.
  repeat split. left. exists "msg=", "123", "45".
  repeat split; try discriminate. now right.
Defined.

Lemma record_type_field_witness :
  parse_message "type=AVC msg=audit(1600000000.123:45): pid=5"
  = Ok (Some [("type", VStr "AVC"); ("time", VInt 1600000000); ("pid", VInt 5)])
  /\ get "type" [("type", VStr "AVC"); ("time", VInt 1600000000);
                 ("pid", VInt 5)]
     = Some (VStr "AVC").
Proof.
  split; [reflexivity|].
  exact (proj2 (proj2 (record_type_field
                         "type=AVC msg=audit(1600000000.123:45): pid=5"
                         [("type", VStr "AVC"); ("time", VInt 1600000000);
                          ("pid", VInt 5)] eq_refl))
               "AVC" "1600000000" "pid=5" avc_line_shape eq_refl eq_refl).
Defined.

(** C9, as stated, fails on a line whose tag is made of digits: the
    [type] field of its record is the integer, not the string tag. *)
Lemma numeric_tag_is_integer :
  let line := "type=1400 audit(1600000000.123:45): pid=5" in
  Spec.line_shape line "1400" "1600000000" "pid=5"
  /\ exists record,
       parse_message line = Ok (Some record)
       /\ get "type" record = Some (VInt 1400)
       /\ get "type" record <> Some (VStr "1400").
Proof.
  split.
  - exists EmptyString, "type=1400 audit(1600000000.123:45): pid=5", EmptyString.
    repeat split. left. exists EmptyString, "123", "45".
    repeat split; try discriminate. now left.
  - eexists. split; [reflexivity|]. split; [reflexivity | discriminate].
Qed.

(** C5.  [should_process] rejects every record whose [time] lies
    outside [since .. until].  When [since] is above [until] no record
    gets through, whatever it holds, and the program prints nothing. *)
Theorem rejects_outside_window
        (main_info_filters : value -> dict -> outcome dict)
        (pretty_printers : value -> dict -> string -> printed string)
        (registered : value -> bool) (a : args) :
  (forall msg t,
      get "time" msg = Some (VInt t) ->
      t < since a \/ until a < t ->
      should_process registered a (Some msg) = Ok false)
  /\ (until a < since a ->
      (forall msg t,
          get "time" msg = Some (VInt t) ->
          should_process registered a (Some msg) = Ok false)
      /\ (forall msg, should_process registered a msg <> Ok true)
      /\ (forall stdin,
             fst (Main.main main_info_filters pretty_printers registered
                            a stdin) = [])).
Proof.
  split; [intros msg t; apply should_process_outside|].
  intros Hw. split; [|split].
  - intros msg t Ht. apply should_process_outside with t; [assumption | lia].
  - intros msg. now apply should_process_empty_window.
  - intros stdin. unfold Main.main.
    assert (Hw' : until (Main.count_implies_merge a)
                  < since (Main.count_implies_merge a))
      by (unfold Main.count_implies_merge; now destruct (count a)).
    destruct (read_loop_empty_window main_info_filters pretty_printers
                registered _ stdin Hw') as (r & -> & [->|[e ->]]).
    + simpl. now destruct (count (Main.count_implies_merge a)).
    + reflexivity.
Qed.

Lemma rejects_outside_window_witness :
  (get "time" [("type", VStr "AVC"); ("time", VInt 75)] = Some (VInt 75)
   /\ (75 < 100 \/ 50 < 75)
   /\ should_process Parsers.registered (Sample.options 100 50 false false)
        (Some [("type", VStr "AVC"); ("time", VInt 75)]) = Ok false)
  /\ (50 < 100
      /\ fst (Main.main Sample.main_info_filters Sample.pretty_printers
                Parsers.registered (Sample.options 100 50 false false)
                [Sample.seccomp_line]) = []).
Proof.
  pose proof (rejects_outside_window Sample.main_info_filters
                Sample.pretty_printers Parsers.registered
                (Sample.options 100 50 false false)) as [Hout Hempty].
  split.
  - split; [reflexivity|]. split; [left; reflexivity|].
    apply (Hout _ 75); [reflexivity | left; reflexivity].
  - split; [reflexivity|]. apply (Hempty eq_refl).
Defined.

(** C8.  A record rejected because its [time] is outside the window
    stays rejected under every configuration with the same window,
    whatever its exclude list, only list and hide-unknown flag. *)
Theorem window_rejection_stable
        (registered : value -> bool) (a a' : args) (msg : dict) (t : Z) :
  get "time" msg = Some (VInt t) ->
  t < since a \/ until a < t ->
  since a' = since a -> until a' = until a ->
  should_process registered a (Some msg) = Ok false
  /\ should_process registered a' (Some msg) = Ok false.
Proof.
  intros Ht Hout Hs Hu. split.
  - now apply should_process_outside with t.
  - apply should_process_outside with t; [assumption|].
    rewrite Hs, Hu. assumption.
Qed.

Lemma window_rejection_stable_witness :
  should_process Parsers.registered (Sample.options 100 200 false false)
    (Some [("type", VStr "AVC"); ("time", VInt 75)]) = Ok false
  /\ should_process Parsers.registered
       {| since := 100; until := 200; exclude := []; only := ["AVC"];
          hide_unknown := true; merge := false; count := false |}
       (Some [("type", VStr "AVC"); ("time", VInt 75)]) = Ok false.
Proof.
  apply (window_rejection_stable Parsers.registered _ _ _ 75);
    [reflexivity | left; reflexivity | reflexivity | reflexivity].
Defined.

(** Fields in another order, under distinct names, are the same
    fields. *)
Lemma get_permutation (r1 r2 : dict) :
  NoDup (keys r1) -> Permutation r1 r2 -> forall k, get k r1 = get k r2.
Proof.
  intros Hnd Hperm. induction Hperm as [|[k0 v0] l l' Hp IH|[k1 v1] [k2 v2] l|l l' l'' Hp1 IH1 Hp2 IH2];
    intros k.
  - reflexivity.
  - simpl. inversion Hnd; subst. now rewrite IH.
  - simpl. inversion Hnd as [|? ? Hnotin _]; subst.
    destruct (String.eqb_spec k1 k), (String.eqb_spec k2 k); try reflexivity.
    subst. exfalso. apply Hnotin. now left.
  - rewrite IH1 by assumption. apply IH2.
    unfold keys in *. apply Permutation_NoDup with (map fst l);
      [now apply Permutation_map | assumption].
Qed.

(** C7.  Two significant-fields records with the same fields and the
    same values, in whatever order the fields were inserted, have equal
    equivalence keys; the table of counts finds the same entry for both
    and counts them in one group. *)
Theorem equivalence_key_stable (r1 r2 : dict) :
  NoDup (keys r1) -> Permutation r1 r2 ->
  FrozenDict_eqb (FrozenDict r1) (FrozenDict r2) = true
  /\ (forall t, seen_get (FrozenDict r1) t = seen_get (FrozenDict r2) t)
  /\ bump (FrozenDict r2) (bump (FrozenDict r1) []) = [(FrozenDict r1, 2)].
Proof.
  intros Hnd Hperm.
  assert (Heq : FrozenDict_eqb (FrozenDict r1) (FrozenDict r2) = true)
    by (apply FrozenDict_eqb_iff; now apply get_permutation).
  split; [exact Heq|]. split.
  - intros t. now apply seen_get_compat.
  - unfold bump. simpl. now rewrite Heq.
Qed.

Lemma equivalence_key_stable_witness :
  FrozenDict_eqb
    (FrozenDict [("type", VStr "SECCOMP"); ("exe", VStr "/bin/true");
                 ("syscall", VInt 59)])
    (FrozenDict [("syscall", VInt 59); ("type", VStr "SECCOMP");
                 ("exe", VStr "/bin/true")]) = true.
Proof.
  refine (proj1 (equivalence_key_stable
                   [("type", VStr "SECCOMP"); ("exe", VStr "/bin/true");
                    ("syscall", VInt 59)]
                   [("syscall", VInt 59); ("type", VStr "SECCOMP");
                    ("exe", VStr "/bin/true")] _ _)).
  - repeat constructor; simpl; intuition discriminate.
  - apply perm_trans with
      [("type", VStr "SECCOMP"); ("syscall", VInt 59); ("exe", VStr "/bin/true")].
    + apply perm_skip, perm_swap.
    + apply perm_swap.
Defined.

Lemma sample_denials_accepted (merge count : bool) :
  accepts Sample.main_info_filters Sample.pretty_printers Parsers.registered
          (Sample.options 0 (2 ^ 64 - 1) merge count)
          [Sample.denial_1; Sample.denial_2]
          [Shown Sample.denial_key [] (Sample.denial_block EmptyString);
           Shown Sample.denial_key [] (Sample.denial_block EmptyString)].
Proof.
  eapply (accepts_take _ _ _ _ _ _ _ (Sample.denial_record 1600000000 999)
                       (VStr "AVC") Sample.denial_key);
    try reflexivity.
  eapply (accepts_take _ _ _ _ _ _ _ (Sample.denial_record 1600000007 1001)
                       (VStr "AVC") Sample.denial_key);
    try reflexivity.
  apply accepts_end.
Defined.

Lemma sample_allowed_accepted (merge count : bool) :
  accepts Sample.main_info_filters Sample.pretty_printers Parsers.registered
          (Sample.options 0 (2 ^ 64 - 1) merge count)
          [Sample.allowed_line; Sample.allowed_line]
          [Shown Sample.allowed_record [Sample.notice]
                 (Sample.allowed_block EmptyString);
           Shown Sample.allowed_record [Sample.notice]
                 (Sample.allowed_block EmptyString)].
Proof.
  eapply (accepts_take _ _ _ _ _ _ _ Sample.allowed_record
                       (VStr "AVC") Sample.allowed_record);
    try reflexivity.
  eapply (accepts_take _ _ _ _ _ _ _ Sample.allowed_record
                       (VStr "AVC") Sample.allowed_record);
    try reflexivity.
  apply accepts_end.
Defined.




(* ================================================================= *)
(** ** Further properties of the tokenizer                             *)
(* ================================================================= *)

(** X1.  Blanks around a line change nothing: the line with blanks in
    front of it and after it (the newline a line of stdin ends with, for
    one) gives what the bare line gives. *)
Theorem blanks_ignored (a line b : string) :
  Spec.blank a -> Spec.blank b ->
  parse_message (a ++ line ++ b)%string = parse_message line.
Proof.
  intros Ha Hb. unfold parse_message, normalize.
  now rewrite strip_blanks.
Qed.

Lemma blanks_ignored_witness :
  parse_message (" " ++ Sample.seccomp_line ++ String "010" EmptyString)%string
  = parse_message Sample.seccomp_line.
Proof.
  apply (blanks_ignored " " Sample.seccomp_line (String "010" EmptyString));
    reflexivity.
Defined.

(** X2.  Every line of the shape
    [type=<TAG> [msg=]audit(<seconds>.<subseconds>:<sequence>): <body>]
    whose body ends with no blank is accepted: its record holds the
    fields of [type=<TAG> time=<seconds> <body>], each coerced (a string
    of decimal digits is kept as a string when it has more digits than
    the interpreter's limit of 4300). *)
Theorem shaped_line_accepted (t tag seconds body : string) :
  Spec.audit_shape t tag seconds body -> rstrip body = body ->
  parse_message t
  = Ok (Some (map (fun kv => (fst kv, Spec.coerced_value (snd kv)))
                  (fields ("type=" ++ tag ++ " time=" ++ seconds ++ " "
                                   ++ body)%string))).
Proof.
  intros Hshape Hr.
  exact (parse_message_of_normalize _ _ (normalize_shaped _ _ _ _ Hshape Hr)).
Qed.

Lemma seccomp_line_shape :
  Spec.audit_shape Sample.seccomp_line "SECCOMP" "1600000000"
                   "pid=999 ip=0x7f arch=c000003e code=0xzz".
Proof.
  exists "msg=", "123", "45".
  repeat split; try discriminate. now right.
Defined.

Lemma shaped_line_accepted_witness :
  parse_message Sample.seccomp_line
  = Ok (Some [("type", VStr "SECCOMP"); ("time", VInt 1600000000);
              ("pid", VInt 999); ("ip", VInt 127);
              ("arch", VStr "c000003e"); ("code", VStr "0xzz")]).
Proof.
  exact (shaped_line_accepted Sample.seccomp_line "SECCOMP" "1600000000"
           "pid=999 ip=0x7f arch=c000003e code=0xzz"
           seccomp_line_shape eq_refl).
Defined.

(** X3.  The kernel time stamp [[<digits>.<digits>] audit: ] in front of
    a line of the shape is dropped: the line read from dmesg gives the
    record of the audit line it carries. *)
Theorem dmesg_stamp_dropped (a b t tag seconds body : string) :
  Spec.run_of digit a -> Spec.run_of digit b ->
  Spec.audit_shape t tag seconds body -> rstrip body = body ->
  parse_message ("[" ++ a ++ "." ++ b ++ "] audit: " ++ t)%string
  = parse_message t.
Proof.
  intros Ha Hb Hshape Hr.
  replace ("[" ++ a ++ "." ++ b ++ "] audit: " ++ t)%string
    with (dmesg_stamp a b ++ t)%string
    by (unfold dmesg_stamp; now repeat (progress (rewrite ?append_assoc; simpl))).
  rewrite (parse_message_of_normalize _ _
             (normalize_stamped _ _ _ _ _ _ Ha Hb Hshape Hr)).
  now rewrite (parse_message_of_normalize _ _
                 (normalize_shaped _ _ _ _ Hshape Hr)).
Qed.

Lemma dmesg_stamp_dropped_witness :
  parse_message ("[" ++ "12" ++ "." ++ "345678" ++ "] audit: "
                     ++ Sample.seccomp_line)%string
  = parse_message Sample.seccomp_line.
Proof.
  apply (dmesg_stamp_dropped "12" "345678" Sample.seccomp_line "SECCOMP"
           "1600000000" "pid=999 ip=0x7f arch=c000003e code=0xzz").
  - split; [discriminate | reflexivity].
  - split; [discriminate | reflexivity].
  - exact seccomp_line_shape.
  - reflexivity.
Defined.

Section Scanning.

Local Open Scope string_scope.

Lemma finditer_unquoted (key val rest : string) :
  Spec.run_of key_char key -> Spec.run_of not_space val ->
  startswith val quote = false -> stops not_space rest ->
  finditer field (key ++ "=" ++ val ++ rest)
  = [(3%nat, val); (1%nat, key)] :: finditer field rest.
Proof.
  intros Hkey Hval Hq Hstop.
  pose proof (match_field_unquoted key val rest Hkey Hval Hq Hstop) as Hm.
  destruct key as [|c key]; [now destruct Hkey|].
  replace (String c key ++ "=" ++ val ++ rest)
    with (String c (key ++ "=" ++ val) ++ rest) in *
    by (now repeat (progress (rewrite ?append_assoc; simpl))).
  now apply finditer_match.
Qed.

(** A lazy run stops at the first place where the rest matches. *)
Lemma plus_lazy_until {R : Type} (p q : ascii -> bool) (s rest : string)
      (k : string -> option R) (x : R) :
  s <> EmptyString -> all_chars p s = true -> all_chars q s = true ->
  (forall c r, q c = true -> k (String c r) = None) ->
  k rest = Some x ->
  plus_lazy p (s ++ rest) k = Some x.
Proof.
  intros Hne Hp Hq Hk Hrest. induction s as [|c s IH]; [congruence|].
  simpl in *. apply andb_true_iff in Hp as [-> Hp].
  apply andb_true_iff in Hq as [Hc Hq].
  destruct s as [|c' s].
  - simpl. now rewrite Hrest.
  - simpl in Hq. pose proof Hq as Hq'. apply andb_true_iff in Hq' as [Hc' _].
    change (String c' s ++ rest) with (String c' (s ++ rest)).
    rewrite (Hk c' (s ++ rest) Hc').
    apply IH; [discriminate | assumption | assumption].
Qed.

Lemma quoted_char_split (s : string) :
  all_chars quoted_char s = true ->
  all_chars dot s = true
  /\ all_chars (fun c => negb (Ascii.eqb "034" c)) s = true.
Proof.
  induction s as [|c s IH]; cbn [all_chars]; [auto|].
  unfold quoted_char at 1. intros H.
  apply andb_true_iff in H as [Hc Hs]. apply andb_true_iff in Hc as [-> ->].
  destruct (IH Hs) as [-> ->]. auto.
Qed.

(** [key="value"]: the value between the quotes, whatever follows. *)
Lemma match_field_quoted (key val rest : string) :
  Spec.run_of key_char key -> Spec.run_of quoted_char val ->
  match_ field (key ++ "=" ++ quote ++ val ++ quote ++ rest)
  = Some (rest, [(2%nat, val); (1%nat, key)]).
Proof.
  intros Hkey [Hne Hval]. destruct (quoted_char_split val Hval) as [Hdot Hnq].
  unfold match_, field. cbn [run].
  apply plus_greedy_max; [exact Hkey | reflexivity |].
  rewrite strip_prefix_append. rewrite strip_prefix_append.
  erewrite (plus_lazy_until dot (fun c => negb (Ascii.eqb "034" c)) val
              (quote ++ rest) _ _ Hne Hdot Hnq).
  - reflexivity.
  - intros c r Hc. unfold quote. cbn [strip_prefix].
    apply negb_true_iff in Hc. now rewrite Hc.
  - rewrite strip_prefix_append.
    now rewrite !consumed_append.
Qed.

Lemma finditer_quoted (key val rest : string) :
  Spec.run_of key_char key -> Spec.run_of quoted_char val ->
  finditer field (key ++ "=" ++ quote ++ val ++ quote ++ rest)
  = [(2%nat, val); (1%nat, key)] :: finditer field rest.
Proof.
  intros Hkey Hval.
  pose proof (match_field_quoted key val rest Hkey Hval) as Hm.
  destruct key as [|c key]; [now destruct Hkey|].
  replace (String c key ++ "=" ++ quote ++ val ++ quote ++ rest)
    with (String c (key ++ "=" ++ quote ++ val ++ quote) ++ rest) in *
    by (now repeat (progress (rewrite ?append_assoc; simpl))).
  now apply finditer_match.
Qed.

Lemma get_fields_after (k key : string) (v : value) (ms : list captures) :
  get k (fold_left store_match ms [(key, v)]) =
  match get k (fold_left store_match ms []) with
  | Some w => Some w
  | None => if String.eqb key k then Some v else None
  end.
Proof. now rewrite get_fold_store_match. Qed.

End Scanning.

(** X4.  Later fields win.  A field [key=value] in front of the rest of
    the text is stored first; it keeps its value unless the rest has a
    field of the same name, whose value then replaces it. *)
Theorem later_field_wins (k key val rest : string) :
  Spec.run_of key_char key -> Spec.run_of not_space val ->
  startswith val quote = false -> stops not_space rest ->
  get k (fields (key ++ "=" ++ val ++ rest)%string) =
  match get k (fields rest) with
  | Some w => Some w
  | None => if String.eqb key k then Some (VStr val) else None
  end.
Proof.
  intros Hkey Hval Hq Hstop. unfold fields.
  rewrite finditer_unquoted by assumption.
  apply get_fields_after.
Qed.

Lemma later_field_wins_witness :
  get "pid" (fields "pid=1 uid=0 pid=2") = Some (VStr "2").
Proof.
  refine (later_field_wins "pid" "pid" "1" " uid=0 pid=2" _ _ eq_refl eq_refl);
    (split; [discriminate | reflexivity]).
Defined.



Section RecordShape.

Lemma keys_set_prefix (k : string) (v : value) (d : dict) :
  exists extra, keys (set k v d) = keys d ++ extra.
Proof.
  rewrite keys_set. destruct (mem k d).
  - exists []. now rewrite app_nil_r.
  - now exists [k].
Qed.

Lemma keys_store_match_prefix (d : dict) (m : captures) :
  exists extra, keys (store_match d m) = keys d ++ extra.
Proof.
  unfold store_match.
  destruct (group 1 m) as [key|]; [|exists []; now rewrite app_nil_r].
  destruct (group 2 m) as [v2|], (group 3 m) as [v3|].
  - destruct (keys_set_prefix key (VStr v2) d) as [e1 H1].
    destruct (keys_set_prefix key (VStr v3) (set key (VStr v2) d)) as [e2 H2].
    exists (e1 ++ e2). now rewrite H2, H1, app_assoc.
  - apply keys_set_prefix.
  - apply keys_set_prefix.
  - exists []. now rewrite app_nil_r.
Qed.

(** Scanning more fields only adds keys after those already there. *)
Lemma keys_fold_store_match_prefix (ms : list captures) :
  forall d, exists extra, keys (fold_left store_match ms d) = keys d ++ extra.
Proof.
  induction ms as [|m ms IH]; intros d; simpl.
  - exists []. now rewrite app_nil_r.
  - destruct (IH (store_match d m)) as [e2 H2].
    destruct (keys_store_match_prefix d m) as [e1 H1].
    exists (e1 ++ e2). now rewrite H2, H1, app_assoc.
Qed.

Lemma should_process_total (registered : value -> bool) (a : args)
      (msg : dict) (t : Z) (ty : value) :
  get "time" msg = Some (VInt t) -> get "type" msg = Some ty ->
  exists b, should_process registered a (Some msg) = Ok b.
Proof.
  intros Ht Hty. unfold should_process, getitem. rewrite Ht, Hty. simpl.
  destruct (t <? since a); simpl; [eauto|].
  destruct (t >? until a); simpl; [eauto|].
  destruct (negb _); simpl.
  - destruct (value_in ty (exclude a)); simpl; [eauto|].
    destruct (negb _); simpl.
    + destruct (negb (value_in ty (only a))); simpl; [eauto|].
      destruct (_ && _)%bool; eauto.
    + destruct (_ && _)%bool; eauto.
  - destruct (negb _); simpl.
    + destruct (negb (value_in ty (only a))); simpl; [eauto|].
      destruct (_ && _)%bool; eauto.
    + destruct (_ && _)%bool; eauto.
Qed.

End RecordShape.

(** X6.  The record of a line lists [type] first and [time] second,
    whatever the body holds, and no key twice. *)
Theorem record_starts_with_type_time (line : string) (record : dict) :
  parse_message line = Ok (Some record) ->
  (exists others, keys record = "type" :: "time" :: others)
  /\ NoDup (keys record).
Proof.
  intros H.
  destruct (reserved_fields line record H)
    as (tag & secs & body & Hshape & -> & _).
  destruct (line_shape_runs _ _ _ _ Hshape) as [Htag Hsecs].
  rewrite keys_map_coerce. split.
  - rewrite fields_rewritten by assumption.
    destruct (keys_fold_store_match_prefix (finditer field body)
                [("type", VStr tag); ("time", VStr secs)]) as [extra ->].
    now exists extra.
  - apply fields_well_formed.
Qed.

Lemma record_starts_with_type_time_witness :
  (exists others,
      keys [("type", VStr "SECCOMP"); ("time", VInt 1600000000);
            ("pid", VInt 999); ("ip", VInt 127);
            ("arch", VStr "c000003e"); ("code", VStr "0xzz")]
      = "type" :: "time" :: others)
  /\ NoDup (keys [("type", VStr "SECCOMP"); ("time", VInt 1600000000);
                  ("pid", VInt 999); ("ip", VInt 127);
                  ("arch", VStr "c000003e"); ("code", VStr "0xzz")]).
Proof.
  exact (record_starts_with_type_time Sample.seccomp_line _ eq_refl).
Defined.

(** X7.  For each reading of an accepted line as
    [type=<TAG> [msg=]audit(<seconds>.<subseconds>:<sequence>): <body>]
    with a body that ends with no blank and has no field named [time]:
    the [time] of the record is the integer the seconds denote (the
    sub-second part and the sequence number are dropped), or the
    seconds as a string when they have more digits than the
    interpreter's limit of 4300; in the first case [should_process]
    raises for no configuration. *)
Theorem record_time_is_stamp (line : string) (record : dict)
        (tag seconds body : string) :
  parse_message line = Ok (Some record) ->
  Spec.line_shape line tag seconds body -> rstrip body = body ->
  mem "time" (fields body) = false ->
  get "time" record
  = Some (if (String.length seconds <=? max_str_digits)%nat
          then VInt (Spec.decimal_value seconds) else VStr seconds)
  /\ ((String.length seconds <= max_str_digits)%nat ->
      forall registered a,
      exists b, should_process registered a (Some record) = Ok b).
Proof.
  intros H Hshape Hr Hbody.
  rewrite (parse_message_of_shape _ _ _ _ Hshape Hr) in H.
  injection H as <-.
  destruct (line_shape_runs _ _ _ _ Hshape) as [Htag Hsecs].
  assert (Htime : get "time" (map coerce_kv (fields (rewritten tag seconds body)))
                  = Some (Spec.coerced seconds)).
  { rewrite get_map_coerce, get_fields_rewritten by assumption.
    unfold mem in Hbody.
    now destruct (get "time" (fields body)). }
  rewrite Htime, (coerced_seconds seconds Hsecs). split; [reflexivity|].
  intros Hlen registered a.
  apply Nat.leb_le in Hlen.
  rewrite (coerced_seconds seconds Hsecs), Hlen in Htime.
  assert (Hty : exists ty,
             get "type" (map coerce_kv (fields (rewritten tag seconds body)))
             = Some ty).
  { rewrite get_map_coerce, get_fields_rewritten by assumption.
    destruct (get "type" (fields body)); simpl; eauto. }
  destruct Hty as [ty Hty].
  eapply should_process_total; eassumption.
Qed.

Lemma seccomp_line_reading :
  Spec.line_shape Sample.seccomp_line "SECCOMP" "1600000000"
                  "pid=999 ip=0x7f arch=c000003e code=0xzz".
Proof.
  exists EmptyString, Sample.seccomp_line, EmptyString.
  repeat split. left. exists "msg=", "123", "45".
  repeat split; try discriminate. now right.
Defined.

Lemma record_time_is_stamp_witness :
  get "time" [("type", VStr "SECCOMP"); ("time", VInt 1600000000);
              ("pid", VInt 999); ("ip", VInt 127);
              ("arch", VStr "c000003e"); ("code", VStr "0xzz")]
  = Some (VInt 1600000000)
  /\ forall registered a,
     exists b,
       should_process registered a
         (Some [("type", VStr "SECCOMP"); ("time", VInt 1600000000);
                ("pid", VInt 999); ("ip", VInt 127);
                ("arch", VStr "c000003e"); ("code", VStr "0xzz")])
       = Ok b.
Proof.
  destruct (record_time_is_stamp Sample.seccomp_line
              [("type", VStr "SECCOMP"); ("time", VInt 1600000000);
               ("pid", VInt 999); ("ip", VInt 127);
               ("arch", VStr "c000003e"); ("code", VStr "0xzz")]
              "SECCOMP" "1600000000" "pid=999 ip=0x7f arch=c000003e code=0xzz"
              eq_refl seccomp_line_reading eq_refl eq_refl) as [Htime Hfilter].
  split; [exact Htime|].
  apply Hfilter. apply Nat.leb_le. reflexivity.
Defined.

Section Hexadecimal.

Lemma hex_digit_facts c :
  hex_digit c = true ->
  Ascii.eqb c underscore = false
  /\ exists d, digit_value c = Some d /\ (d <? 16) = true.
Proof.
  destruct c as [[] [] [] [] [] [] [] []]; vm_compute; intros H;
    (discriminate H || (split; [reflexivity | eexists; split; reflexivity])).
Qed.

Lemma scan_hex_tail (s : string) :
  forall acc n,
    all_chars hex_digit s = true ->
    scan_digits 16 acc false true n s
    = Some (hex_from acc s, (n + String.length s)%nat, EmptyString).
Proof.
  induction s as [|c s IH]; intros acc n H; simpl.
  - now rewrite Nat.add_0_r.
  - simpl in H. apply andb_true_iff in H as [Hc Hs].
    destruct (hex_digit_facts c Hc) as (_ & d & -> & ->).
    rewrite IH by assumption.
    now rewrite (Z.mul_comm acc 16), Nat.add_succ_r.
Qed.

Lemma strip_hex_prefix_digits (c : ascii) (s : string) :
  Ascii.eqb c underscore = false ->
  strip_hex_prefix (String "0" (String "x" (String c s))) = String c s.
Proof.
  destruct c as [[] [] [] [] [] [] [] []]; vm_compute; intros H;
    (discriminate H || reflexivity).
Qed.

(** [int] reads [0x] followed by hexadecimal digits as the number the
    digits denote. *)
Lemma int_of_str_hex (h : string) :
  Spec.run_of hex_digit h ->
  int_of_str 16 ("0x" ++ h)%string = Ok (hex_value h).
Proof.
  intros [Hne Hall]. destruct h as [|c h]; [congruence|].
  pose proof Hall as Hall'. simpl in Hall'.
  apply andb_true_iff in Hall' as [Hc Hh].
  destruct (hex_digit_facts c Hc) as (Hus & d & Hd & Hlt).
  unfold int_of_str.
  change (drop_while int_space ("0x" ++ String c h)%string)
    with (String "0" (String "x" (String c h))).
  change (strip_sign (String "0" (String "x" (String c h))))
    with (1, String "0" (String "x" (String c h))).
  change (16 =? 16) with true. cbv iota.
  rewrite (strip_hex_prefix_digits c h Hus).
  rewrite startswith_false
    by (intros rest [= -> _]; discriminate Hus).
  cbn [scan_digits]. rewrite Hd, Hlt.
  rewrite scan_hex_tail by assumption.
  change (binary_base 16) with true.
  cbn [negb andb drop_while]. unfold hex_value. cbn [hex_from]. rewrite Hd.
  change (0 * 16 + d) with d. change (16 * 0 + d) with d.
  now destruct (hex_from d h).
Qed.

End Hexadecimal.

(** X8.  A field whose text is [0x] followed by hexadecimal digits is
    stored as the integer the digits denote. *)
Theorem hexadecimal_field_is_integer (k h : string) (result : dict) :
  Spec.run_of hex_digit h ->
  coerce_field result (k, VStr ("0x" ++ h)%string)
  = Ok (set k (VInt (hex_value h)) result).
Proof.
  intros Hh. rewrite coerce_field_str. unfold Spec.coerced.
  change (Spec.is_decimal ("0x" ++ h)%string) with false. cbv iota.
  replace (startswith ("0x" ++ h)%string "0x") with true
    by (symmetry; apply prefix_true_iff; now exists h).
  now rewrite (int_of_str_hex h Hh).
Qed.

Lemma hexadecimal_field_is_integer_witness :
  coerce_field [("code", VStr "0x7fff0000")] ("code", VStr "0x7fff0000")
  = Ok [("code", VInt 2147418112)].
Proof.
  refine (hexadecimal_field_is_integer "code" "7fff0000"
            [("code", VStr "0x7fff0000")] _).
  split; [discriminate | reflexivity].
Defined.

(** X19.  A field made of more decimal digits than the interpreter's
    limit of 4300 stays a string: [int] raises [ValueError], the loop
    catches it and leaves the record as it is. *)
Theorem long_decimal_stays_string (k s : string) (result : dict) :
  Spec.is_decimal s = true ->
  (max_str_digits < String.length s)%nat ->
  int_of_str 10 s = Raise ValueError
  /\ coerce_field result (k, VStr s) = Ok result.
Proof.
  intros Hdec Hlen.
  assert (E : (String.length s <=? max_str_digits)%nat = false)
    by (apply Nat.leb_gt; exact Hlen).
  split.
  - now rewrite (int_of_str_decimal s Hdec), E.
  - rewrite coerce_field_str. unfold Spec.coerced. now rewrite Hdec, E.
Qed.

Lemma long_decimal_stays_string_witness :
  int_of_str 10 (repeat_char "7" 4301) = Raise ValueError
  /\ coerce_field [("n", VStr (repeat_char "7" 4301))]
                  ("n", VStr (repeat_char "7" 4301))
     = Ok [("n", VStr (repeat_char "7" 4301))].
Proof.
  apply (long_decimal_stays_string "n" (repeat_char "7" 4301)
           [("n", VStr (repeat_char "7" 4301))]).
  - vm_compute. reflexivity.
  - apply Nat.ltb_lt. vm_compute. reflexivity.
Defined.

(* ================================================================= *)
(** ** Further properties of the filter and of the loop                *)
(* ================================================================= *)

(** X9.  On a record with an integer [time] and a [type],
    [should_process] answers, and accepts exactly when the time is
    inside the window, the type is not in the exclude list, the only
    list is empty or holds the type, and the type is registered or
    unknown types are not hidden. *)
Theorem should_process_decides
        (registered : value -> bool) (a : args) (msg : dict)
        (t : Z) (ty : value) :
  get "time" msg = Some (VInt t) -> get "type" msg = Some ty ->
  should_process registered a (Some msg)
  = Ok ((since a <=? t) && (t <=? until a)
        && negb (value_in ty (exclude a))
        && (match only a with [] => true | _ => value_in ty (only a) end)
        && (registered ty || negb (hide_unknown a)))%bool.
Proof.
  intros Ht Hty. unfold should_process, getitem. rewrite Ht, Hty. simpl.
  rewrite (Z.leb_antisym t (since a)), (Z.gtb_ltb t (until a)),
    (Z.ltb_antisym t (until a)).
  destruct (t <? since a); simpl; [reflexivity|].
  destruct (t <=? until a); simpl; [|reflexivity].
  destruct (exclude a) as [|x xs] eqn:Ex; simpl.
  - destruct (only a) as [|y ys] eqn:Eo; simpl.
    + now destruct (registered ty), (hide_unknown a).
    + destruct (value_eqb ty (VStr y) || value_in ty ys)%bool; simpl;
        [now destruct (registered ty), (hide_unknown a) | reflexivity].
  - destruct (value_eqb ty (VStr x) || value_in ty xs)%bool; simpl;
      [reflexivity|].
    destruct (only a) as [|y ys] eqn:Eo; simpl.
    + now destruct (registered ty), (hide_unknown a).
    + destruct (value_eqb ty (VStr y) || value_in ty ys)%bool; simpl;
        [now destruct (registered ty), (hide_unknown a) | reflexivity].
Qed.

Lemma should_process_decides_witness :
  should_process Parsers.registered
    {| since := 0; until := 100; exclude := ["SECCOMP"]; only := [];
       hide_unknown := true; merge := false; count := false |}
    (Some [("type", VStr "AVC"); ("time", VInt 75)])
  = Ok true.
Proof.
  exact (should_process_decides Parsers.registered _
           [("type", VStr "AVC"); ("time", VInt 75)] 75 (VStr "AVC")
           eq_refl eq_refl).
Defined.

Section RunFacts.

Variable main_info_filters : value -> dict -> outcome dict.
Variable pretty_printers : value -> dict -> string -> printed string.
Variable registered : value -> bool.

Local Abbreviation process :=
  (Main.process main_info_filters pretty_printers).
Local Abbreviation read_loop :=
  (Main.read_loop main_info_filters pretty_printers registered).
Local Abbreviation passes :=
  (passes main_info_filters pretty_printers registered).

(** One record when no grouping is asked for: the block is printed and
    the table is left alone. *)
Lemma process_plain (a : args) (msg : dict) (ty : value) (info : dict)
      (diag : list string) (text : string) (seen : table) :
  merge a = false -> count a = false ->
  get "type" msg = Some ty ->
  main_info_filters ty msg = Ok info ->
  pretty_printers ty msg EmptyString = (diag, Ok text) ->
  process a msg seen = (diag ++ [text], Ok seen).
Proof.
  intros Hm Hc Hty Hinfo Hpp. unfold Main.process, getitem.
  rewrite Hty. simpl. rewrite Hinfo. simpl. rewrite Hpp. simpl.
  now rewrite Hm, Hc.
Qed.

Lemma read_loop_plain (a : args) (stdin : list string)
      (items : list (dict * string)) :
  merge a = false -> count a = false -> passes a stdin items ->
  forall seen, read_loop a stdin seen = (map snd items, Ok seen).
Proof.
  intros Hm Hc Hp. induction Hp as
      [|line rest items msg Hparse Hs _ IH
       |line rest items msg ty info text Hparse Hs Hty Hinfo Hpp _ IH];
    intros seen.
  - reflexivity.
  - cbn [Main.read_loop]. rewrite Hparse, ?bind_lift_ok, Hs, ?bind_lift_ok. now rewrite IH.
  - cbn [Main.read_loop]. rewrite Hparse, ?bind_lift_ok, Hs, ?bind_lift_ok.
    rewrite (process_plain a msg ty info [] text seen); auto.
    cbn [app]. rewrite bind_io_result, IH. reflexivity.
Qed.

Lemma count_implies_merge_plain (a : args) :
  count a = false -> Main.count_implies_merge a = a.
Proof. unfold Main.count_implies_merge. now intros ->. Qed.

End RunFacts.



Lemma sample_denials_pass (merge count : bool) :
  passes Sample.main_info_filters Sample.pretty_printers Parsers.registered
         (Sample.options 0 (2 ^ 64 - 1) merge count)
         [Sample.denial_1; Sample.denial_2]
         [(Sample.denial_key, Sample.denial_block EmptyString);
          (Sample.denial_key, Sample.denial_block EmptyString)].
Proof.
  eapply (passes_take _ _ _ _ _ _ _ (Sample.denial_record 1600000000 999)
                      (VStr "AVC") Sample.denial_key);
    try reflexivity.
  eapply (passes_take _ _ _ _ _ _ _ (Sample.denial_record 1600000007 1001)
                      (VStr "AVC") Sample.denial_key);
    try reflexivity.
  apply passes_end.
Defined.



Section TableInvariants.

Lemma occurrences_positive (key : dict) (stream : list dict) :
  In key stream -> 1 <= Spec.occurrences key stream.
Proof.
  unfold Spec.occurrences. induction stream as [|k stream IH]; simpl; [tauto|].
  intros [->|Hin].
  - rewrite FrozenDict_eqb_refl. simpl. lia.
  - specialize (IH Hin). destruct (FrozenDict_eqb key k); simpl; lia.
Qed.

Lemma total_count_seen_set (key : dict) (n : Z) (t : table) :
  total_count (seen_set key n t)
  = total_count t + n - match seen_get key t with Some m => m | None => 0 end.
Proof.
  unfold total_count. induction t as [|[k m] t IH]; simpl; [lia|].
  destruct (FrozenDict_eqb k key); simpl; [lia|].
  rewrite IH. lia.
Qed.

Lemma total_count_bump (key : dict) (t : table) :
  total_count (bump key t) = total_count t + 1.
Proof. unfold bump. rewrite total_count_seen_set. lia. Qed.

End TableInvariants.

(** X12.  The table of counts after any stream of keys: the counts add
    up to the number of keys counted, every count is at least 1, and no
    two entries have equal keys. *)
Theorem table_counts_every_record (stream : list dict) :
  let t := fold_left (fun t key => bump key t) stream [] in
  total_count t = Z.of_nat (List.length stream)
  /\ Forall (fun entry => 1 <= snd entry) t
  /\ distinct (map fst t).
Proof.
  split; [|split].
  - induction stream as [|key stream IH] using rev_ind; [reflexivity|].
    rewrite fold_left_app, length_app. simpl.
    rewrite total_count_bump, IH. lia.
  - rewrite fold_bump_summary. unfold Spec.summary.
    apply Forall_forall. intros entry Hin.
    apply in_map_iff in Hin as (key & <- & Hkey). simpl.
    apply occurrences_positive. now apply first_seen_incl.
  - rewrite fold_bump_summary. unfold Spec.summary.
    rewrite map_map. simpl. rewrite map_id. apply first_seen_distinct.
Qed.

(* ================================================================= *)
(** ** Further properties of the plugins                               *)
(* ================================================================= *)

Section PluginFacts.

Lemma delitem_last (h : Obj.heap) (d : dict) (k : string) :
  Obj.delitem (List.length h) k (h ++ [d])
  = if mem k d then (h ++ [remove k d], Ok tt)
    else (h ++ [d], Raise (KeyError k)).
Proof.
  unfold Obj.delitem, delitem. rewrite load_last.
  destruct (mem k d); [now rewrite store_last | reflexivity].
Qed.

Lemma load_old (h : Obj.heap) (d : dict) (r : Obj.ref) :
  (r < List.length h)%nat -> Obj.load r (h ++ [d]) = Obj.load r h.
Proof. intros H. unfold Obj.load. now apply app_nth1. Qed.

Lemma get_remove_other (k k' : string) (d : dict) :
  k <> k' -> get k (remove k' d) = get k d.
Proof.
  intros Hk. induction d as [|[k0 v0] d IH]; simpl; [reflexivity|].
  destruct (String.eqb_spec k0 k') as [->|Hk0]; simpl.
  - destruct (String.eqb_spec k' k); [congruence | reflexivity].
  - now rewrite IH.
Qed.

Lemma get_remove_same (k : string) (d : dict) :
  NoDup (keys d) -> get k (remove k d) = None.
Proof.
  induction d as [|[k0 v0] d IH]; simpl; [reflexivity|].
  intros Hnd. inversion Hnd as [|? ? Hnotin Hnd']; subst.
  destruct (String.eqb_spec k0 k) as [->|Hk0]; simpl.
  - now apply get_none_iff.
  - destruct (String.eqb_spec k0 k); [congruence | auto].
Qed.

Lemma keys_remove_incl (k : string) (d : dict) :
  forall x, In x (keys (remove k d)) -> In x (keys d).
Proof.
  induction d as [|[k0 v0] d IH]; simpl; [auto|].
  destruct (String.eqb k0 k); simpl; intuition.
Qed.

Lemma NoDup_keys_remove (k : string) (d : dict) :
  NoDup (keys d) -> NoDup (keys (remove k d)).
Proof.
  induction d as [|[k0 v0] d IH]; simpl; [auto|].
  intros Hnd. inversion Hnd as [|? ? Hnotin Hnd']; subst.
  destruct (String.eqb k0 k); simpl; [assumption|].
  constructor; [|auto]. intros Hin. apply Hnotin.
  now apply keys_remove_incl with k.
Qed.

Lemma mem_remove_other (k k' : string) (d : dict) :
  k <> k' -> mem k (remove k' d) = mem k d.
Proof. intros H. unfold mem. now rewrite get_remove_other. Qed.

(** What is left of a record once the volatile fields of a denial are
    deleted. *)
Lemma get_without_volatile (k : string) (d : dict) :
  NoDup (keys d) ->
  get k (remove "ouid" (remove "fsuid" (remove "comm" (remove "pid"
           (remove "time" d)))))
  = if existsb (String.eqb k) apparmor_volatile then None else get k d.
Proof.
  intros Hnd. unfold apparmor_volatile. cbn [existsb].
  destruct (String.eqb_spec k "ouid") as [->|H1].
  { now rewrite get_remove_same by (repeat apply NoDup_keys_remove; assumption). }
  rewrite get_remove_other by assumption.
  destruct (String.eqb_spec k "fsuid") as [->|H2].
  { rewrite orb_true_r.
    now rewrite get_remove_same by (repeat apply NoDup_keys_remove; assumption). }
  rewrite get_remove_other by assumption.
  destruct (String.eqb_spec k "comm") as [->|H3].
  { now rewrite get_remove_same by (repeat apply NoDup_keys_remove; assumption). }
  rewrite get_remove_other by assumption.
  destruct (String.eqb_spec k "pid") as [->|H4].
  { now rewrite get_remove_same by (repeat apply NoDup_keys_remove; assumption). }
  rewrite get_remove_other by assumption.
  destruct (String.eqb_spec k "time") as [->|H5].
  { now rewrite get_remove_same by assumption. }
  now rewrite get_remove_other by assumption.
Qed.

(** The extractor of AppArmor records works on the copy it makes: the
    store ends with one more object and the objects that were there are
    as they were. *)
Lemma apparmor_main_info_store (msg : Obj.ref) (h : Obj.heap) :
  exists d r,
    Parsers.apparmor_main_info msg h = (h ++ [d], r)
    /\ forall m, r = Ok m -> m = List.length h.
Proof.
  unfold Parsers.apparmor_main_info.
  unfold Obj.bind at 1. unfold Obj.copy, Obj.new at 1.
  unfold Obj.bind at 1. unfold Obj.getitem at 1. rewrite load_last.
  destruct (getitem "apparmor" (Obj.load msg h)) as [kind|e];
    [|eexists _, _; split; [reflexivity | discriminate]].
  destruct (value_eqb kind (VStr "DENIED"));
    [|eexists _, _; split; [reflexivity | now intros m [= <-]]].
  unfold Obj.bind at 1. rewrite delitem_last.
  destruct (mem "time" _);
    [|eexists _, _; split; [reflexivity | discriminate]].
  unfold Obj.bind at 1. rewrite delitem_last.
  destruct (mem "pid" _);
    [|eexists _, _; split; [reflexivity | discriminate]].
  unfold Obj.bind at 1. rewrite delitem_last.
  destruct (mem "comm" _);
    [|eexists _, _; split; [reflexivity | discriminate]].
  unfold Obj.bind at 1. rewrite del_if_present_last.
  unfold Obj.bind at 1. rewrite del_if_present_last.
  eexists _, _. split; [reflexivity | now intros m [= <-]].
Qed.

(** The key of a denial that has the fields the extractor deletes. *)
Lemma apparmor_main_info_denied (msg : dict) :
  get "apparmor" msg = Some (VStr "DENIED") ->
  mem "time" msg = true -> mem "pid" msg = true -> mem "comm" msg = true ->
  Obj.call Parsers.apparmor_main_info msg
  = Ok (remove "ouid" (remove "fsuid" (remove "comm" (remove "pid"
         (remove "time" msg))))).
Proof.
  intros Hkind Htime Hpid Hcomm.
  unfold Obj.call, Parsers.apparmor_main_info.
  unfold Obj.bind at 1. unfold Obj.copy, Obj.new at 1.
  change (Obj.load 0%nat [msg]) with msg.
  unfold Obj.bind at 1. unfold Obj.getitem at 1.
  rewrite (load_last [msg] msg). unfold getitem. rewrite Hkind.
  change (value_eqb (VStr "DENIED") (VStr "DENIED")) with true. cbv iota.
  unfold Obj.bind at 1. rewrite (delitem_last [msg] msg), Htime.
  unfold Obj.bind at 1. rewrite (delitem_last [msg]).
  rewrite mem_remove_other, Hpid by discriminate.
  unfold Obj.bind at 1. rewrite (delitem_last [msg]).
  rewrite !mem_remove_other, Hcomm by discriminate.
  unfold Obj.bind at 1. rewrite (del_if_present_last [msg]).
  unfold Obj.bind at 1. rewrite (del_if_present_last [msg]).
  unfold Obj.ret. now rewrite (load_last [msg]).
Qed.

Lemma default_info_filter_call (msg : dict) :
  Obj.call Parsers.default_info_filter msg = Ok msg.
Proof.
  unfold Obj.call, Parsers.default_info_filter.
  unfold Obj.bind at 1. unfold Obj.copy, Obj.new at 1.
  unfold Obj.bind at 1. rewrite (del_if_present_last [msg]).
  unfold Obj.bind at 1. rewrite (del_if_present_last [msg]).
  unfold Obj.bind at 1. rewrite (del_if_present_last [msg]).
  unfold Obj.bind at 1. rewrite (del_if_present_last [msg]).
  reflexivity.
Qed.

End PluginFacts.

(** X13.  The AppArmor extractor never changes the record it is given
    nor any other object: whatever the record holds, and also when it
    raises, the store only gains the copy, and a returned reference is
    that of the copy. *)
Theorem apparmor_main_info_leaves_source (msg : Obj.ref) (h : Obj.heap) :
  (msg < List.length h)%nat ->
  exists d r,
    Parsers.apparmor_main_info msg h = (h ++ [d], r)
    /\ Obj.load msg (h ++ [d]) = Obj.load msg h
    /\ forall m, r = Ok m -> m = List.length h /\ m <> msg.
Proof.
  intros Hvalid.
  destruct (apparmor_main_info_store msg h) as (d & r & Heq & Hfresh).
  exists d, r. split; [exact Heq|]. split; [now apply load_old|].
  intros m Hm. specialize (Hfresh m Hm). lia.
Qed.

Lemma apparmor_main_info_leaves_source_witness :
  exists d r,
    Parsers.apparmor_main_info 0%nat [Sample.denial_record 1600000000 999]
    = ([Sample.denial_record 1600000000 999] ++ [d], r)
    /\ Obj.load 0%nat ([Sample.denial_record 1600000000 999] ++ [d])
       = Obj.load 0%nat [Sample.denial_record 1600000000 999]
    /\ forall m, r = Ok m -> m = 1%nat /\ m <> 0%nat.
Proof.
  apply (apparmor_main_info_leaves_source 0%nat
           [Sample.denial_record 1600000000 999]).
  simpl. lia.
Defined.

(** X14.  Two AppArmor denials that have [time], [pid] and [comm] and
    agree on every field other than [time], [pid], [comm], [fsuid] and
    [ouid] get significant-fields records with the same fields and the
    same values, so equal keys: they fall in one group. *)
Theorem apparmor_denials_share_key (r1 r2 : dict) :
  NoDup (keys r1) -> NoDup (keys r2) ->
  get "apparmor" r1 = Some (VStr "DENIED") ->
  mem "time" r1 = true -> mem "pid" r1 = true -> mem "comm" r1 = true ->
  mem "time" r2 = true -> mem "pid" r2 = true -> mem "comm" r2 = true ->
  (forall k, existsb (String.eqb k) apparmor_volatile = false ->
             get k r1 = get k r2) ->
  exists i1 i2,
    Obj.call Parsers.apparmor_main_info r1 = Ok i1
    /\ Obj.call Parsers.apparmor_main_info r2 = Ok i2
    /\ (forall k, get k i1 = get k i2)
    /\ FrozenDict_eqb (FrozenDict i1) (FrozenDict i2) = true.
Proof.
  intros Hnd1 Hnd2 Hk1 Ht1 Hp1 Hc1 Ht2 Hp2 Hc2 Hagree.
  assert (Hk2 : get "apparmor" r2 = Some (VStr "DENIED"))
    by (rewrite <- Hagree; [assumption | reflexivity]).
  eexists _, _.
  split; [now apply apparmor_main_info_denied|].
  split; [now apply apparmor_main_info_denied|].
  assert (Hsame : forall k,
             get k (remove "ouid" (remove "fsuid" (remove "comm"
                      (remove "pid" (remove "time" r1)))))
             = get k (remove "ouid" (remove "fsuid" (remove "comm"
                        (remove "pid" (remove "time" r2)))))).
  { intros k. rewrite !get_without_volatile by assumption.
    destruct (existsb (String.eqb k) apparmor_volatile) eqn:E;
      [reflexivity | now apply Hagree]. }
  split; [exact Hsame | now apply FrozenDict_eqb_iff].
Qed.

Lemma denial_record_keys (time_ pid : Z) :
  NoDup (keys (Sample.denial_record time_ pid)).
Proof. repeat constructor; simpl; intuition discriminate. Defined.

Lemma apparmor_denials_share_key_witness :
  exists i1 i2,
    Obj.call Parsers.apparmor_main_info (Sample.denial_record 1600000000 999)
    = Ok i1
    /\ Obj.call Parsers.apparmor_main_info
         (Sample.denial_record 1600000007 1001)
       = Ok i2
    /\ (forall k, get k i1 = get k i2)
    /\ FrozenDict_eqb (FrozenDict i1) (FrozenDict i2) = true.
Proof.
  apply (apparmor_denials_share_key (Sample.denial_record 1600000000 999)
           (Sample.denial_record 1600000007 1001));
    try reflexivity; try apply denial_record_keys.
  intros k Hk. cbn [existsb apparmor_volatile] in Hk.
  apply orb_false_iff in Hk as [H1 Hk].
  apply orb_false_iff in Hk as [H2 _].
  unfold Sample.denial_record. cbn [get].
  now rewrite (String.eqb_sym "time" k), H1, (String.eqb_sym "pid" k), H2.
Defined.

(** X15.  The summary count mode prints for a group of seccomp records
    is rendered from [type], [exe] and [syscall] alone: it shows time 0,
    no signal, no errno and no ids, and the system call is decoded for
    the default architecture [c000003e], whatever the records held. *)
Theorem seccomp_summary_block
        (pretty_helper : string -> value -> string -> string -> dict -> dict -> string)
        (decode_signal : option value -> value)
        (decode_syscall : option value -> value -> value)
        (strerror : Z -> string)
        (msg : dict) (exe syscall : value) (count : Z) :
  get "exe" msg = Some exe -> get "syscall" msg = Some syscall ->
  exists info,
    Obj.call Parsers.seccomp_main_info msg = Ok info
    /\ Main.flush (Parsers.pretty_printers pretty_helper decode_signal
                     decode_syscall strerror)
                  [(FrozenDict info, count)]
       = ([pretty_helper "seccomp policy violation" (VInt 0) "warn"
             ("(" ++ str_of_int count ++ ")")%string
             [("Executable", exe);
              ("Signal", decode_signal None);
              ("Errno", VStr "?");
              ("System call", decode_syscall (Some syscall) (VStr "c000003e"))]
             [("User ID", VStr "?"); ("Group ID", VStr "?");
              ("AUID", VStr "?"); ("PID", VStr "?");
              ("Thread name", VStr "?")]],
          Ok tt).
Proof.
  intros Hexe Hsys. eexists. split.
  - unfold Obj.call, Parsers.seccomp_main_info, Obj.bind, Obj.getitem, getitem.
    change (Obj.load 0%nat [msg]) with msg. rewrite Hexe, Hsys. reflexivity.
  - reflexivity.
Qed.

Lemma seccomp_summary_block_witness :
  exists info,
    Obj.call Parsers.seccomp_main_info
      [("type", VStr "SECCOMP"); ("time", VInt 1600000000);
       ("exe", VStr "/bin/true"); ("arch", VStr "40000003");
       ("syscall", VInt 59)]
    = Ok info
    /\ Main.flush Sample.pretty_printers [(FrozenDict info, 3)]
       = (["seccomp policy violation(3):Executable=/bin/true,Signal=?,Errno=?,System call=59"],
          Ok tt).
Proof.
  exact (seccomp_summary_block Sample.pretty_helper Sample.decode_signal
           Sample.decode_syscall Sample.strerror
           [("type", VStr "SECCOMP"); ("time", VInt 1600000000);
            ("exe", VStr "/bin/true"); ("arch", VStr "40000003");
            ("syscall", VInt 59)]
           (VStr "/bin/true") (VInt 59) 3 eq_refl eq_refl).
Defined.

(** X16.  With the tables of [parsers.py], a record whose [type] is an
    integer (what the tokenizer makes of a tag of digits) is dispatched
    to the default extractor and the default renderer, and the renderer
    raises [TypeError] where it joins the type to its label: the record
    is not printed, in any mode. *)
Theorem integer_type_raises
        (pretty_helper : string -> value -> string -> string -> dict -> dict -> string)
        (decode_signal : option value -> value)
        (decode_syscall : option value -> value -> value)
        (strerror : Z -> string)
        (a : args) (msg : dict) (n : Z) (seen : table) :
  get "type" msg = Some (VInt n) ->
  Main.process (fun ty m => Obj.call (Parsers.main_info_filters ty) m)
               (Parsers.pretty_printers pretty_helper decode_signal
                  decode_syscall strerror)
               a msg seen
  = ([], Raise TypeError).
Proof.
  intros Hty. unfold Main.process, getitem. rewrite Hty.
  cbn [lift bind_io Parsers.main_info_filters Parsers.pretty_printers].
  rewrite default_info_filter_call.
  unfold Parsers.default_pretty_printer, getitem. rewrite Hty.
  reflexivity.
Qed.

Lemma integer_type_raises_witness :
  Main.process (fun ty m => Obj.call (Parsers.main_info_filters ty) m)
               Sample.pretty_printers
               (Sample.options 0 (2 ^ 64 - 1) false false)
               [("type", VInt 1400); ("time", VInt 1600000000);
                ("pid", VInt 5)] []
  = ([], Raise TypeError).
Proof.
  exact (integer_type_raises Sample.pretty_helper Sample.decode_signal
           Sample.decode_syscall Sample.strerror
           (Sample.options 0 (2 ^ 64 - 1) false false)
           [("type", VInt 1400); ("time", VInt 1600000000); ("pid", VInt 5)]
           1400 [] eq_refl).
Defined.

Lemma registered_tags (ty : value) :
  Parsers.registered ty = true -> ty = VStr "AVC" \/ ty = VStr "SECCOMP".
Proof.
  intros H. destruct ty as [s|]; [|discriminate H].
  repeat (destruct s as [|c s];
          [try discriminate H; auto
          |destruct c as [[] [] [] [] [] [] [] []]; try discriminate H]).
Qed.

(** X17.  With [--hide-unknown] and the tables of [parsers.py], a record
    the filter lets through has the type [AVC] or [SECCOMP], a string:
    the two table lookups of the loop give the AppArmor entries or the
    seccomp entries, not the default ones.  (The AppArmor renderer hands
    a record that is no denial to [default_pretty_printer] itself; that
    call is not excluded.) *)
Theorem hide_unknown_keeps_registered (a : args) (msg : dict) (ty : value) :
  hide_unknown a = true ->
  get "type" msg = Some ty ->
  should_process Parsers.registered a (Some msg) = Ok true ->
  (ty = VStr "AVC"
   /\ Parsers.main_info_filters ty = Parsers.apparmor_main_info
   /\ forall pretty_helper decode_signal decode_syscall strerror,
        Parsers.pretty_printers pretty_helper decode_signal decode_syscall
                                strerror ty
        = Parsers.apparmor_pretty pretty_helper)
  \/ (ty = VStr "SECCOMP"
      /\ Parsers.main_info_filters ty = Parsers.seccomp_main_info
      /\ forall pretty_helper decode_signal decode_syscall strerror,
           Parsers.pretty_printers pretty_helper decode_signal decode_syscall
                                   strerror ty
           = Parsers.seccomp_pretty pretty_helper decode_signal decode_syscall
                                    strerror).
Proof.
  intros Hhide Hty Hs.
  assert (Hreg : ty = VStr "AVC" \/ ty = VStr "SECCOMP").
  { apply registered_tags.
    unfold should_process, getitem in Hs. rewrite Hty, Hhide in Hs.
    destruct (get "time" msg) as [t|]; [|discriminate Hs]. simpl in Hs.
    destruct (lt_int t (since a)) as [[|]|]; simpl in Hs; try discriminate Hs.
    destruct (gt_int t (until a)) as [[|]|]; simpl in Hs; try discriminate Hs.
    destruct (Parsers.registered ty); [reflexivity|].
    destruct (negb (Nat.eqb (List.length (exclude a)) 0)); simpl in Hs;
      destruct (value_in ty (exclude a)); simpl in Hs; try discriminate Hs;
      destruct (negb (Nat.eqb (List.length (only a)) 0)); simpl in Hs;
      destruct (value_in ty (only a)); simpl in Hs; discriminate Hs. }
  destruct Hreg as [-> | ->]; [left | right]; repeat split.
Qed.

Lemma hide_unknown_keeps_registered_witness :
  (VStr "AVC" = VStr "AVC"
   /\ Parsers.main_info_filters (VStr "AVC") = Parsers.apparmor_main_info
   /\ forall pretty_helper decode_signal decode_syscall strerror,
        Parsers.pretty_printers pretty_helper decode_signal decode_syscall
                                strerror (VStr "AVC")
        = Parsers.apparmor_pretty pretty_helper)
  \/ (VStr "AVC" = VStr "SECCOMP"
      /\ Parsers.main_info_filters (VStr "AVC") = Parsers.seccomp_main_info
      /\ forall pretty_helper decode_signal decode_syscall strerror,
           Parsers.pretty_printers pretty_helper decode_signal decode_syscall
                                   strerror (VStr "AVC")
           = Parsers.seccomp_pretty pretty_helper decode_signal decode_syscall
                                    strerror).
Proof.
  exact (hide_unknown_keeps_registered
           {| since := 0; until := 100; exclude := []; only := [];
              hide_unknown := true; merge := false; count := false |}
           [("type", VStr "AVC"); ("time", VInt 75)] (VStr "AVC")
           eq_refl eq_refl eq_refl).
Defined.

Section EmptyValue.

Local Open Scope string_scope.

Lemma plus_greedy_fail {R : Type} (p : ascii -> bool) (s : string)
      (k : string -> option R) :
  (forall s1 s2, s = s1 ++ s2 -> Spec.run_of p s1 -> k s2 = None) ->
  plus_greedy p s k = None.
Proof.
  intros H. destruct (plus_greedy p s k) as [x|] eqn:E; [|reflexivity].
  apply plus_greedy_sound in E as (s1 & s2 & Hs & Hrun & Hk).
  rewrite (H s1 s2 Hs Hrun) in Hk. discriminate.
Qed.

(** Cutting a text that starts with a run of key characters inside a
    shorter run of them leaves the end of the run in front of the
    rest. *)
Lemma key_run_split (s1 : string) :
  forall u t s2,
    all_chars key_char u = true -> stops key_char t ->
    s1 ++ s2 = u ++ t -> all_chars key_char s1 = true ->
    exists u', u = s1 ++ u' /\ s2 = u' ++ t.
Proof.
  induction s1 as [|c s1 IH]; intros u t s2 Hu Ht Heq Hs1.
  - exists u. now split.
  - simpl in Hs1. apply andb_true_iff in Hs1 as [Hc Hs1].
    destruct u as [|c' u].
    + simpl in Heq. subst t. simpl in Ht. congruence.
    + simpl in Heq, Hu. injection Heq as -> Heq.
      apply andb_true_iff in Hu as [_ Hu].
      destruct (IH u t s2 Hu Ht Heq Hs1) as (u' & -> & ->).
      now exists u'.
Qed.

Lemma key_char_not_equals c :
  implb (key_char c) (negb (Ascii.eqb "=" c)) = true.
Proof. by_cases_on_char c. Qed.

(** [key=] followed by a space matches nowhere inside the key. *)
Lemma match_field_no_value (u rest : string) :
  all_chars key_char u = true ->
  match_ field (u ++ "= " ++ rest) = None.
Proof.
  intros Hu. unfold match_, field. cbn [run].
  apply plus_greedy_fail. intros s1 s2 Hsplit [_ Hs1].
  destruct (key_run_split s1 u ("= " ++ rest) s2 Hu eq_refl
              (eq_sym Hsplit) Hs1) as (u' & -> & ->).
  destruct u' as [|c u'].
  - reflexivity.
  - rewrite all_chars_append in Hu. apply andb_true_iff in Hu as [_ Hu].
    simpl in Hu. apply andb_true_iff in Hu as [Hc _].
    pose proof (implb_true _ _ (key_char_not_equals c) Hc) as Hne.
    apply negb_true_iff in Hne.
    change (String c u' ++ "= " ++ rest) with (String c (u' ++ "= " ++ rest)).
    cbn [strip_prefix]. now rewrite Hne.
Qed.

Lemma finditer_no_value (u rest : string) :
  all_chars key_char u = true ->
  finditer field (u ++ "= " ++ rest) = finditer field rest.
Proof.
  induction u as [|c u IH]; intros Hu.
  - reflexivity.
  - change (String c u ++ "= " ++ rest) with (String c (u ++ "= " ++ rest)).
    rewrite finditer_no_match
      by (exact (match_field_no_value (String c u) rest Hu)).
    simpl in Hu. apply andb_true_iff in Hu as [_ Hu]. auto.
Qed.

End EmptyValue.


